(** * gonum/dist: the Normal distribution and its quantile function

    A shallow embedding of [dist/normal.go]: the rational-polynomial
    evaluator [rateval], the three-region quantile dispatcher [zQuantile],
    the closed-form methods of [Normal] and the fitting procedure
    [FitPrior].

    The source computes on Go's [float64].  The code is embedded once, over
    an interface [Float64] of the operations the source uses, and read in
    two ways:
    - [Binary64]: IEEE-754 binary64 (Rocq's primitive floats), the
      arithmetic the Go program runs; it evaluates the code on concrete
      inputs and carries the statements about infinities, zeros and
      comparisons;
    - [Exact]: the same operations without rounding (real numbers plus the
      three special values); it carries the algebraic identities, which on
      binary64 hold up to rounding.
    Statements about the control flow and the shape of the computation are
    proved for every reading.

    A panic is a result of its own, with its message; a method on a pointer
    receiver threads the receiver, so that what a panic leaves behind can
    be read.  Package [math]'s [Log] and [Erf] and the packages [stat] and
    [floats] are not part of the source: the first two are an interface
    ([MathLib]), the others are modelled from the specification.

    Layout: the Go values, the literals and the [float64] interface; the
    source; the two readings; the vocabulary of the statements; then the
    lemmas and theorems, by component. *)

From Stdlib Require Import ZArith List String Bool Lia.
From Stdlib Require Import Floats.
From Stdlib Require Import Reals Lra.
Import ListNotations.

Set Implicit Arguments.
Local Open Scope string_scope.

(* ================================================================== *)
(** * Go values: panics, slices, int64 *)

(** A call either returns or panics with a message. *)
Inductive result (A : Type) : Type :=
| Ok (a : A)
| Panic (msg : string).
Arguments Ok {A} a.
Arguments Panic {A} msg.

(** Code that mutates a receiver of type [S]: the receiver is threaded
    through, and a panic keeps the receiver as it was when it was raised. *)
Definition exec (S A : Type) : Type := S -> S * result A.

Class GoMonad (M : Type -> Type) : Type := {
  ret : forall {A}, A -> M A;
  bind : forall {A B}, M A -> (A -> M B) -> M B;
  panic : forall {A}, string -> M A
}.

#[global] Instance result_monad : GoMonad result := {
  ret := fun A a => Ok a;
  bind := fun A B m k => match m with Ok a => k a | Panic msg => Panic msg end;
  panic := fun A msg => Panic msg
}.

#[global] Instance exec_monad (S : Type) : GoMonad (exec S) := {
  ret := fun A a s => (s, Ok a);
  bind := fun A B m k s =>
    match m s with
    | (s', Ok a) => k a s'
    | (s', Panic msg) => (s', Panic msg)
    end;
  panic := fun A msg s => (s, Panic msg)
}.

Notation "x <- m ;; k" := (bind m (fun x => k))
  (at level 61, m at next level, right associativity).
Notation "' pat <- m ;; k" := (bind m (fun x => match x with pat => k end))
  (at level 61, pat pattern, m at next level, right associativity).
Notation "m ;; k" := (bind m (fun _ => k))
  (at level 61, right associativity).

(** [if c { panic(msg) }] *)
Definition panic_if {M} `{GoMonad M} (c : bool) (msg : string) : M unit :=
  if c then panic msg else ret tt.

(** [len(s)] *)
Definition len {A} (s : list A) : Z := Z.of_nat (List.length s).

Definition index_out_of_range : string := "runtime error: index out of range".

(** [s[i]] as a value: a run-time panic outside [0 <= i < len(s)]. *)
Definition index {M} `{GoMonad M} {A} (s : list A) (i : Z) : M A :=
  if (i <? 0)%Z then panic index_out_of_range
  else match nth_error s (Z.to_nat i) with
       | Some a => ret a
       | None => panic index_out_of_range
       end.

Fixpoint update {A} (s : list A) (i : nat) (v : A) : list A :=
  match s, i with
  | [], _ => []
  | _ :: s', O => v :: s'
  | a :: s', S i' => a :: update s' i' v
  end.

(** [s[i] = v]: the same panic. *)
Definition store {M} `{GoMonad M} {A} (s : list A) (i : Z) (v : A) : M (list A) :=
  if ((i <? 0) || (len s <=? i))%Z then panic index_out_of_range
  else ret (update s (Z.to_nat i) v).

(** [int64] arithmetic wraps around. *)
Definition wrap64 (z : Z) : Z := ((z + 2 ^ 63) mod 2 ^ 64 - 2 ^ 63)%Z.
Definition int64_sub (x y : Z) : Z := wrap64 (x - y).

(* ================================================================== *)
(** * Floating-point literals

    A Go constant such as [0.180625] is an exact decimal number until it is
    used as a [float64].  A literal is kept as [mantissa * 10 ^ exponent];
    each reading of [float64] says how it becomes a value. *)

Record lit : Set := Lit { lit_mantissa : Z; lit_exponent : Z }.

(** Constant arithmetic is exact: [-c] on a constant. *)
Definition lit_neg (l : lit) : lit := Lit (- lit_mantissa l) (lit_exponent l).

(** A number has one representation: no trailing zero in the mantissa, so
    that [1.0] and [1] are the same constant. *)
Fixpoint lit_strip (fuel : nat) (m e : Z) : lit :=
  match fuel with
  | O => Lit m e
  | S fuel' =>
      if (m =? 0)%Z then Lit 0 0
      else if (m mod 10 =? 0)%Z then lit_strip fuel' (m / 10) (e + 1)
      else Lit m e
  end.

Definition lit_norm (m e : Z) : lit :=
  lit_strip (S (Z.to_nat (Z.log2 (Z.abs m)))) m e.

Definition lit_parse (n : Number.number) : option lit :=
  match n with
  | Number.Decimal (Decimal.Decimal i f) =>
      Some (lit_norm (Z.of_int (Decimal.app_int i f))
                     (- Z.of_nat (Decimal.nb_digits f)))
  | Number.Decimal (Decimal.DecimalExp i f e) =>
      Some (lit_norm (Z.of_int (Decimal.app_int i f))
                     (Z.of_int e - Z.of_nat (Decimal.nb_digits f)))
  | Number.Hexadecimal _ => None
  end.

Definition lit_print (l : lit) : Number.number :=
  let m := Z.to_int (lit_mantissa l) in
  let digits := Decimal.nb_digits (N.to_uint (Z.abs_N (lit_mantissa l))) in
  let k := Z.to_nat (- lit_exponent l) in
  Number.Decimal
    (if (lit_exponent l =? 0)%Z then Decimal.Decimal m Decimal.Nil
     else if (0 <? lit_exponent l)%Z || (digits + 3 <? k)%nat then
       Decimal.DecimalExp m Decimal.Nil (Z.to_int (lit_exponent l))
     else if (digits <=? k)%nat then
       Decimal.Decimal
         (if (lit_mantissa l <? 0)%Z then Decimal.Neg (Decimal.D0 Decimal.Nil)
          else Decimal.Pos (Decimal.D0 Decimal.Nil))
         (Nat.iter (k - digits) Decimal.D0
            (N.to_uint (Z.abs_N (lit_mantissa l))))
     else
       Decimal.Decimal (Decimal.del_tail_int k m)
         (Decimal.del_head (digits - k) (N.to_uint (Z.abs_N (lit_mantissa l))))).

Declare Scope lit_scope.
Delimit Scope lit_scope with lit.
Bind Scope lit_scope with lit.
Number Notation lit lit_parse lit_print : lit_scope.

(** The same syntax where a [float64] is expected: the literal converted. *)
Variant lit_syntax : Set := LitSyntax (l : lit).

Definition lit_of_number (n : Number.number) : option lit_syntax :=
  option_map LitSyntax (lit_parse n).

Definition number_of_lit (s : lit_syntax) : Number.number :=
  let 'LitSyntax l := s in lit_print l.

(* ================================================================== *)
(** * The [float64] interface *)

(** The operations of the language on [float64], the conversions to it, and
    the functions of package [math] that IEEE-754 fixes. *)
Class Float64 (F : Type) : Type := {
  f_lit : lit -> F;              (* a constant used as a float64 *)
  f_of_int : Z -> F;             (* float64(n) *)
  f_add : F -> F -> F;
  f_sub : F -> F -> F;
  f_mul : F -> F -> F;
  f_div : F -> F -> F;
  f_neg : F -> F;
  f_eqb : F -> F -> bool;
  f_ltb : F -> F -> bool;
  f_leb : F -> F -> bool;
  math_Abs : F -> F;
  math_Sqrt : F -> F;
  math_Inf : Z -> F              (* math.Inf(sign) *)
}.

(** The transcendental functions of package [math]. *)
Class MathLib (F : Type) : Type := {
  math_Log : F -> F;
  math_Erf : F -> F
}.

Declare Scope f64_scope.
Delimit Scope f64_scope with f64.

Definition f64 (F : Type) : Type := F.

#[warnings="-via-type-remapping,-via-type-mismatch"]
Number Notation f64 lit_of_number number_of_lit
  (via lit_syntax mapping [[f_lit] => LitSyntax]) : f64_scope.

Infix "+" := f_add : f64_scope.
Infix "-" := f_sub : f64_scope.
Infix "*" := f_mul : f64_scope.
Infix "/" := f_div : f64_scope.
Notation "- x" := (f_neg x) : f64_scope.
Infix "=?" := f_eqb : f64_scope.
Infix "<?" := f_ltb : f64_scope.
Infix "<=?" := f_leb : f64_scope.
Notation "x >? y" := (f_ltb y x) (only parsing) : f64_scope.

(** The two elementary facts about comparison that the quantile dispatcher
    relies on to tell its boundary cases from the open interval. *)
Class Float64Laws (F : Type) (ops : Float64 F) : Prop := {
  f_ltb_neq : forall x y : F, f_ltb x y = true -> f_eqb x y = false;
  f_gtb_neq : forall x y : F, f_ltb y x = true -> f_eqb x y = false
}.

(* ================================================================== *)
(** * The source, over any reading of [float64] *)

Section Dist.
Context {F : Type} {ops : Float64 F} {lib : MathLib F}.
Local Open Scope f64_scope.

(** ** Constants *)

Definition oneOverRoot2Pi : lit :=
  0.39894228040143267793994605993438186847585863116493465766592582967065792589930183850125233390730693643030255886263518268.
Definition logRoot2Pi : lit :=
  0.91893853320467274178032973640561763986139747363778341281715154048276569592726039769474329863595419762200564662463433744.
Definition negLogRoot2Pi : lit := lit_neg logRoot2Pi.
Definition log2Pi : lit := 1.8378770664093454835606594728112352797227949472755668.

(** [math.Sqrt2], the constant of package [math]. *)
Definition math_Sqrt2 : lit :=
  1.41421356237309504880168872420969807856967187537694807317667974.

(** ** The rational-polynomial evaluator *)

Definition zQuantSmallA : list F := [3.387132872796366608; 133.14166789178437745; 1971.5909503065514427; 13731.693765509461125; 45921.953931549871457; 67265.770927008700853; 33430.575583588128105; 2509.0809287301226727].
Definition zQuantSmallB : list F := [1.0; 42.313330701600911252; 687.1870074920579083; 5394.1960214247511077; 21213.794301586595867; 39307.89580009271061; 28729.085735721942674; 5226.495278852854561].
Definition zQuantInterA : list F := [1.42343711074968357734; 4.6303378461565452959; 5.7694972214606914055; 3.64784832476320460504; 1.27045825245236838258; 0.24178072517745061177; 0.0227238449892691845833; 7.7454501427834140764e-4].
Definition zQuantInterB : list F := [1.0; 2.05319162663775882187; 1.6763848301838038494; 0.68976733498510000455; 0.14810397642748007459; 0.0151986665636164571966; 5.475938084995344946e-4; 1.05075007164441684324e-9].
Definition zQuantTailA : list F := [6.6579046435011037772; 5.4637849111641143699; 1.7848265399172913358; 0.29656057182850489123; 0.026532189526576123093; 0.0012426609473880784386; 2.71155556874348757815e-5; 2.01033439929228813265e-7].
Definition zQuantTailB : list F := [1.0; 0.59983220655588793769; 0.13692988092273580531; 0.0148753612908506148525; 7.868691311456132591e-4; 1.8463183175100546818e-5; 1.4215117583164458887e-7; 2.04426310338993978564e-15].

(** [for i := n; i > 0; i-- { u = x*u + a[i-1] }]: the counter [i] is the
    structural argument, [a[i-1]] the coefficient read in the round. *)
Fixpoint rateval_loop (a : list F) (x : F) (i : nat) (u : F) : result F :=
  match i with
  | O => Ok u
  | S i' =>
      c <- index a (Z.of_nat i') ;;
      rateval_loop a x i' (x * u + c)
  end.

Definition rateval (a : list F) (na : Z) (b : list F) (nb : Z) (x : F)
  : result F :=
  u <- index a (int64_sub na 1) ;;
  u <- rateval_loop a x (Z.to_nat (int64_sub na 1)) u ;;
  v <- index b (int64_sub nb 1) ;;
  v <- rateval_loop b x (Z.to_nat (int64_sub nb 1)) v ;;
  let r := u / v in
  Ok r.

Definition zQuantSmall (q : F) : result F :=
  let r := 0.180625 - q * q in
  y <- rateval zQuantSmallA 8 zQuantSmallB 8 r ;;
  Ok (q * y).

Definition zQuantIntermediate (r : F) : result F :=
  rateval zQuantInterA 8 zQuantInterB 8 (r - 1.6).

Definition zQuantTail (r : F) : result F :=
  rateval zQuantTailA 8 zQuantTailB 8 (r - 5.0).

(** ** The quantile dispatcher, in normalized units *)

Definition zQuantile (p : F) : result F :=
  if p =? 1.0 then Ok (math_Inf 1)
  else if p =? 0.0 then Ok (math_Inf (-1))
  else
    let dp := p - 0.5 in
    if math_Abs dp <=? 0.425 then zQuantSmall dp
    else
      let pp := if p <? 0.5 then p else 1.0 - p in
      let r := math_Sqrt (- math_Log pp) in
      x <- (if r <=? 5.0 then zQuantIntermediate r else zQuantTail r) ;;
      if p <? 0.5 then Ok (- x) else Ok x.

(** ** The distribution *)

(** [Source *rand.Rand] is read by [Rand] alone, which is not embedded. *)
Record Normal : Type := { Mu : F; Sigma : F }.

Definition NumParameters (n : Normal) : Z := 2.

Definition CDF (n : Normal) (x : F) : F :=
  0.5 * (1 + math_Erf ((x - Mu n) / (Sigma n * f_lit math_Sqrt2))).

Definition Survival (n : Normal) (x : F) : F :=
  0.5 * (1 - math_Erf ((x - Mu n) / (Sigma n * f_lit math_Sqrt2))).

Definition LogProb (n : Normal) (x : F) : F :=
  f_lit negLogRoot2Pi - math_Log (Sigma n)
  - (x - Mu n) * (x - Mu n) / (2 * Sigma n * Sigma n).

Definition DLogProbDX (n : Normal) (x : F) : F :=
  - (1 / (2 * Sigma n * Sigma n)) * 2 * (x - Mu n).

(** [deriv] is the caller's slice; the result is the slice as the call
    leaves it. *)
Definition DLogProbDParam (n : Normal) (x : F) (deriv : list F)
  : result (list F) :=
  panic_if (negb (len deriv =? NumParameters n)%Z)
           "dist: slice length mismatch" ;;
  deriv <- store deriv 0 (Mu n * (x - Mu n) / (Sigma n * Sigma n)) ;;
  deriv <- store deriv 1
             (1 / Sigma n * (-1 + (x - Mu n) * (x - Mu n) / 2.0)) ;;
  Ok deriv.

Definition Quantile (n : Normal) (p : F) : result F :=
  panic_if ((p <? 0) || (p >? 1)) "dist: percentile out of bounds" ;;
  z <- zQuantile p ;;
  Ok (Mu n + Sigma n * z).

(** ** The statistics collaborators *)

(** Modelled from the spec: [floats.Sum] of package [gonum/floats], the
    sum of a sequence, accumulated from the left starting at zero. *)
Definition floats_Sum (s : list F) : F := fold_left f_add s 0.

Fixpoint f_pow (d : F) (k : nat) : F :=
  match k with
  | O => 1
  | S k' => d * f_pow d k'
  end.

(** Modelled from the spec: [stat.Mean] of package [gonum/stat], the
    weighted arithmetic mean over a sequence with an optional parallel
    weight sequence (absent: every weight is 1). *)
Definition stat_Mean (x weights : list F) : F :=
  match weights with
  | [] => floats_Sum x / f_of_int (len x)
  | _ =>
      fold_left f_add (map (fun '(w, v) => w * v) (combine weights x)) 0
      / floats_Sum weights
  end.

(** Modelled from the spec: [stat.Moment] of package [gonum/stat], the
    weighted central moment of order [moment] about [mean], uncorrected
    (divided by the sum of the weights, or by the count when the weights
    are absent). *)
Definition stat_Moment (moment : nat) (x : list F) (mean : F)
           (weights : list F) : F :=
  match weights with
  | [] =>
      fold_left f_add (map (fun v => f_pow (v - mean) moment) x) 0
      / f_of_int (len x)
  | _ =>
      fold_left f_add
        (map (fun '(w, v) => w * f_pow (v - mean) moment) (combine weights x)) 0
      / floats_Sum weights
  end.

(** ** Fitting *)

Definition get_Mu : exec Normal F := fun n => (n, Ok (Mu n)).
Definition get_Sigma : exec Normal F := fun n => (n, Ok (Sigma n)).
Definition set_Mu (v : F) : exec Normal unit :=
  fun n => ({| Mu := v; Sigma := Sigma n |}, Ok tt).
Definition set_Sigma (v : F) : exec Normal unit :=
  fun n => ({| Mu := Mu n; Sigma := v |}, Ok tt).

Definition FitPrior (samples weights priorValue priorWeight : list F)
  : exec Normal (list F * list F) :=
  (* Error checking and initialization *)
  let lenSamp := len samples in
  let lenPriorValue := len priorValue in
  let lenPriorWeight := len priorWeight in
  panic_if (negb (len weights =? 0)%Z && negb (len samples =? len weights)%Z)
           "dist: slice size mismatch" ;;
  panic_if (negb (lenPriorValue =? lenPriorWeight)%Z)
           "normal: mismatch in prior lengths" ;;
  panic_if (lenPriorValue >? 2)%Z "normal: too many prior values" ;;
  prior <- (if ((lenPriorValue =? 0) || (lenPriorWeight =? 0))%Z then
              if ((lenPriorValue =? 0) && (lenPriorWeight =? 0))%Z then
                ret false
              else if ((lenPriorValue =? 0) && negb (lenPriorWeight =? 0))%Z then
                panic "normal: prior weight provided but not the value"
              else
                panic "normal: prior value provided but not the weight"
            else ret true) ;;
  let sampleMean := stat_Mean samples weights in
  let sampleVariance := stat_Moment 2 samples sampleMean weights in
  let sumWeights :=
    if (len weights =? 0)%Z then f_of_int lenSamp else floats_Sum weights in
  let totalWeight := sumWeights in
  let totalSum := sampleMean * sumWeights in
  '(totalWeight, totalSum) <-
    (if prior : bool then
       pw0 <- index priorWeight 0 ;;
       let totalWeight := totalWeight + pw0 in
       pv0 <- index priorValue 0 ;;
       pw0 <- index priorWeight 0 ;;
       ret (totalWeight, totalSum + pv0 * pw0)
     else ret (totalWeight, totalSum)) ;;
  set_Mu (totalSum / totalWeight) ;;
  let totalVariance := sampleVariance * sumWeights in
  totalVariance <-
    (if prior : bool then
       (* Variance from the prior samples *)
       pw1 <- index priorWeight 1 ;;
       pv1 <- index priorValue 1 ;;
       pv1' <- index priorValue 1 ;;
       let totalVariance := totalVariance + pw1 * pv1 * pv1' in
       (* Cross variance from the differences of the means *)
       pv0 <- index priorValue 0 ;;
       let meanDiff := sampleMean - pv0 in
       pw0 <- index priorWeight 0 ;;
       ret (totalVariance + pw0 * sumWeights * meanDiff * meanDiff / totalWeight)
     else ret totalVariance) ;;
  set_Sigma (math_Sqrt (totalVariance / totalWeight)) ;;
  mu <- get_Mu ;;
  sigma <- get_Sigma ;;
  let newPriorValue := [mu; sigma] in
  let newPriorWeight := [sumWeights; sumWeights] in
  newPriorWeight <-
    (if prior : bool then
       w0 <- index newPriorWeight 0 ;;
       pw0 <- index priorWeight 0 ;;
       newPriorWeight <- store newPriorWeight 0 (w0 + pw0) ;;
       w1 <- index newPriorWeight 1 ;;
       pw1 <- index priorWeight 1 ;;
       store newPriorWeight 1 (w1 + pw1)
     else ret newPriorWeight) ;;
  ret (newPriorValue, newPriorWeight).

Definition Fit (samples weights : list F) : exec Normal unit :=
  FitPrior samples weights [] [] ;;
  ret tt.

End Dist.

(* ================================================================== *)
(** * The rest of the source *)

(** Constant arithmetic is exact: [a + b] on two constants. *)
Definition lit_add (a b : lit) : lit :=
  let e := Z.min (lit_exponent a) (lit_exponent b) in
  lit_norm (lit_mantissa a * 10 ^ (lit_exponent a - e)
            + lit_mantissa b * 10 ^ (lit_exponent b - e)) e.

(** A Go [map[string]int]: the entries in the order of the literal; a
    missing key reads as the zero value. *)
Definition go_map : Type := list (string * Z).

Fixpoint map_get (m : go_map) (k : string) : Z :=
  match m with
  | [] => 0
  | (k', v) :: m' => if String.eqb k k' then v else map_get m' k
  end.

(** [NormalMap], the parameter mapping. *)
Definition NormalMap : go_map := [("Mu", 0%Z); ("Sigma", 1%Z)].

Section DistRest.
Context {F : Type} {ops : Float64 F} {lib : MathLib F}.
Local Open Scope f64_scope.

(** [UnitNormal], the standard normal distribution. *)
Definition UnitNormal : @Normal F := {| Mu := 0; Sigma := 1 |}.

Definition Entropy (n : @Normal F) : F :=
  0.5 * (f_lit (lit_add log2Pi 1) + 2 * math_Log (Sigma n)).

Definition ExKurtosis (n : @Normal F) : F := 0.

Definition Mean (n : @Normal F) : F := Mu n.

Definition Median (n : @Normal F) : F := Mu n.

Definition Mode (n : @Normal F) : F := Mu n.

Definition ParameterMap (n : @Normal F) : go_map := NormalMap.

Definition Skewness (n : @Normal F) : F := 0.

Definition StdDev (n : @Normal F) : F := Sigma n.

Definition Variance (n : @Normal F) : F := Sigma n * Sigma n.

(** [s] is the caller's slice; the result is the slice as the call leaves
    it. *)
Definition MarshalSlice (n : @Normal F) (s : list F) : result (list F) :=
  let nParam := NumParameters n in
  panic_if (negb (len s =? nParam)%Z)
           "exponential: improper parameter length" ;;
  s <- store s 0 (Mu n) ;;
  s <- store s 1 (Sigma n) ;;
  Ok s.

Definition get_Normal : exec (@Normal F) (@Normal F) := fun n => (n, Ok n).

Definition UnmarshalSlice (s : list F) : exec (@Normal F) unit :=
  n <- get_Normal ;;
  panic_if (negb (len s =? NumParameters n)%Z)
           "exponential: incorrect number of parameters to set" ;;
  s0 <- index s 0 ;;
  set_Mu s0 ;;
  s1 <- index s 1 ;;
  set_Sigma s1.

End DistRest.

(** [math.Exp] of package [math], which only [Prob] calls. *)
Class MathExp (F : Type) : Type := {
  math_Exp : F -> F
}.

Section DistProb.
Context {F : Type} {ops : Float64 F} {lib : MathLib F} {elib : MathExp F}.

Definition Prob (n : @Normal F) (x : F) : F :=
  math_Exp (LogProb n x).

End DistProb.

(* ================================================================== *)
(** * Package mat64: stored eigen decompositions

    The matrix type [Dense], its copying function and the LAPACK drivers
    are outside the source at hand: a matrix is a value of an arbitrary
    type [Dense], [DenseCopyOf] an arbitrary function on a matrix
    pointer, and the functions that call LAPACK are not modelled.  A
    slice argument or a pointer that may be [nil] is an [option]. *)

Definition badFact : string := "mat64: use without successful factorization".
Definition badNoVect : string := "mat64: eigenvectors not computed".

(** [matrix.ErrSliceLengthMismatch] of package [gonum/matrix]. *)
Definition ErrSliceLengthMismatch : string := "matrix: slice length mismatch".

(** The built-in [copy]: as many elements as both slices have. *)
Definition copy {A} (dst src : list A) : list A :=
  let k := Nat.min (List.length dst) (List.length src) in
  firstn k src ++ skipn k dst.

(** The built-in [make] of a slice of [n] zero values. *)
Definition make {A} (zero : A) (n : Z) : result (list A) :=
  if (n <? 0)%Z then Panic "runtime error: makeslice: len out of range"
  else Ok (repeat zero (Z.to_nat n)).

(** A [complex128] is its real and its imaginary part. *)
Definition complex128 (F : Type) : Type := (F * F)%type.

Module EigenSym.
Section Defs.
Context {F : Type} {ops : Float64 F}.
Variable Dense : Type.
Local Open Scope f64_scope.

Record EigenSym : Type := {
  vectorsComputed : bool;
  values : list F;
  vectors : option Dense
}.

(** [succFact] returns whether the receiver contains a successful
    factorization. *)
Definition succFact (e : EigenSym) : bool :=
  negb (len (values e) =? 0)%Z.

Definition Values (e : EigenSym) (dst : option (list F)) : result (list F) :=
  panic_if (negb (succFact e)) badFact ;;
  dst <- match dst with
         | None => make 0 (len (values e))
         | Some d => Ok d
         end ;;
  panic_if (negb (len dst =? len (values e))%Z) ErrSliceLengthMismatch ;;
  Ok (copy dst (values e)).

End Defs.
End EigenSym.

Module Eigen.
Section Defs.
Context {F : Type} {ops : Float64 F}.
Variable Dense : Type.
Variable DenseCopyOf : option Dense -> result Dense.
Local Open Scope f64_scope.

Record Eigen : Type := {
  n : Z;                 (* The size of the factorized matrix. *)
  right : bool;          (* have the right eigenvectors been computed *)
  left : bool;           (* have the left eigenvectors been computed *)
  values : list (complex128 F);
  rVectors : option Dense;
  lVectors : option Dense
}.

Definition succFact (e : Eigen) : bool :=
  negb (len (values e) =? 0)%Z.

Definition Values (e : Eigen) (dst : option (list (complex128 F)))
  : result (list (complex128 F)) :=
  panic_if (negb (succFact e)) badFact ;;
  dst <- match dst with
         | None => make ((0, 0) : complex128 F) (n e)
         | Some d => Ok d
         end ;;
  panic_if (negb (len dst =? n e)%Z) ErrSliceLengthMismatch ;;
  Ok (copy dst (values e)).

Definition Vectors (e : Eigen) : result Dense :=
  panic_if (negb (succFact e)) badFact ;;
  panic_if (negb (right e)) badNoVect ;;
  DenseCopyOf (rVectors e).

Definition LeftVectors (e : Eigen) : result Dense :=
  panic_if (negb (succFact e)) badFact ;;
  panic_if (negb (left e)) badNoVect ;;
  DenseCopyOf (lVectors e).

End Defs.
End Eigen.

(* ================================================================== *)
(** * First reading: IEEE-754 binary64 *)

Module Binary64.

(** The binary64 number nearest to [mantissa * 10 ^ exponent] (ties to
    even), as the Go compiler converts a constant: an integer is
    normalized, a fraction is the correctly rounded quotient of two
    integers. *)
Definition lit_to_SF (l : lit) : spec_float :=
  let m := lit_mantissa l in
  let e := lit_exponent l in
  match m with
  | Z0 => S754_zero false
  | Zpos q | Zneg q =>
      if (0 <=? e)%Z then binary_normalize prec emax (m * 10 ^ e) 0 false
      else
        let '(mz, ez, lz) :=
          SFdiv_core_binary prec emax (Zpos q) 0 (10 ^ (- e)) 0 in
        binary_round_aux prec emax (m <? 0)%Z mz ez lz
  end.

Definition of_lit (l : lit) : float := SF2Prim (lit_to_SF l).

Definition of_int (z : Z) : float :=
  SF2Prim (binary_normalize prec emax z 0 false).

Definition Inf (sign : Z) : float :=
  if (0 <=? sign)%Z then infinity else neg_infinity.

#[global] Instance ops : Float64 float := {
  f_lit := of_lit;
  f_of_int := of_int;
  f_add := PrimFloat.add;
  f_sub := PrimFloat.sub;
  f_mul := PrimFloat.mul;
  f_div := PrimFloat.div;
  f_neg := PrimFloat.opp;
  f_eqb := PrimFloat.eqb;
  f_ltb := PrimFloat.ltb;
  f_leb := PrimFloat.leb;
  math_Abs := PrimFloat.abs;
  math_Sqrt := PrimFloat.sqrt;
  math_Inf := Inf
}.

(** Neither an infinity nor a NaN. *)
Definition is_finite (x : float) : bool :=
  match Prim2SF x with
  | S754_zero _ | S754_finite _ _ _ => true
  | S754_infinity _ | S754_nan => false
  end.

(** Primitive floats have no logarithm and no error function: on binary64
    the statements about [zQuantile], [CDF] and the like hold for every
    [MathLib float].  This stand-in, which answers NaN, instantiates them
    on runs that reach neither [math.Log] nor [math.Erf]. *)
Definition no_math : MathLib float :=
  {| math_Log := fun _ => nan; math_Erf := fun _ => nan |}.

End Binary64.

(* ================================================================== *)
(** * Second reading: exact arithmetic *)

Module Exact.
Local Open Scope R_scope.

(** A real number, or one of the special values of IEEE-754.  Finite
    arithmetic is exact: no rounding, no overflow, one zero. *)
Inductive xreal : Type :=
| Fin (r : R)
| PosInf
| NegInf
| NotNum.

Definition Rltb (a b : R) : bool := if Rlt_dec a b then true else false.
Definition Reqb (a b : R) : bool := if Req_dec_T a b then true else false.

Definition lit_to_R (l : lit) : R :=
  if (lit_exponent l <? 0)%Z
  then IZR (lit_mantissa l) / IZR (10 ^ (- lit_exponent l))
  else IZR (lit_mantissa l * 10 ^ lit_exponent l).

Definition xneg (a : xreal) : xreal :=
  match a with
  | Fin x => Fin (- x)
  | PosInf => NegInf
  | NegInf => PosInf
  | NotNum => NotNum
  end.

Definition xabs (a : xreal) : xreal :=
  match a with
  | Fin x => Fin (Rabs x)
  | PosInf | NegInf => PosInf
  | NotNum => NotNum
  end.

Definition xadd (a b : xreal) : xreal :=
  match a, b with
  | NotNum, _ | _, NotNum => NotNum
  | Fin x, Fin y => Fin (x + y)
  | PosInf, NegInf | NegInf, PosInf => NotNum
  | PosInf, _ | _, PosInf => PosInf
  | NegInf, _ | _, NegInf => NegInf
  end.

Definition xsub (a b : xreal) : xreal := xadd a (xneg b).

(** An infinity times or over a finite [x]: its sign follows the sign of
    [x]; there is no infinity times zero. *)
Definition inf_times (pos : bool) (x : R) : xreal :=
  if Rltb 0 x then (if pos then PosInf else NegInf)
  else if Rltb x 0 then (if pos then NegInf else PosInf)
  else NotNum.

Definition xmul (a b : xreal) : xreal :=
  match a, b with
  | NotNum, _ | _, NotNum => NotNum
  | Fin x, Fin y => Fin (x * y)
  | Fin x, PosInf | PosInf, Fin x => inf_times true x
  | Fin x, NegInf | NegInf, Fin x => inf_times false x
  | PosInf, PosInf | NegInf, NegInf => PosInf
  | PosInf, NegInf | NegInf, PosInf => NegInf
  end.

Definition xdiv (a b : xreal) : xreal :=
  match a, b with
  | NotNum, _ | _, NotNum => NotNum
  | Fin x, Fin y =>
      if Reqb y 0 then inf_times true x else Fin (x / y)
  | Fin _, (PosInf | NegInf) => Fin 0
  | PosInf, Fin y => if Rltb y 0 then NegInf else PosInf
  | NegInf, Fin y => if Rltb y 0 then PosInf else NegInf
  | (PosInf | NegInf), (PosInf | NegInf) => NotNum
  end.

Definition xsqrt (a : xreal) : xreal :=
  match a with
  | Fin x => if Rltb x 0 then NotNum else Fin (sqrt x)
  | PosInf => PosInf
  | NegInf | NotNum => NotNum
  end.

Definition xeqb (a b : xreal) : bool :=
  match a, b with
  | Fin x, Fin y => Reqb x y
  | PosInf, PosInf | NegInf, NegInf => true
  | _, _ => false
  end.

Definition xltb (a b : xreal) : bool :=
  match a, b with
  | Fin x, Fin y => Rltb x y
  | NegInf, (Fin _ | PosInf) | Fin _, PosInf => true
  | _, _ => false
  end.

Definition xleb (a b : xreal) : bool := xltb a b || xeqb a b.

Definition xInf (sign : Z) : xreal := if (0 <=? sign)%Z then PosInf else NegInf.

#[global] Instance ops : Float64 xreal := {
  f_lit := fun l => Fin (lit_to_R l);
  f_of_int := fun z => Fin (IZR z);
  f_add := xadd;
  f_sub := xsub;
  f_mul := xmul;
  f_div := xdiv;
  f_neg := xneg;
  f_eqb := xeqb;
  f_ltb := xltb;
  f_leb := xleb;
  math_Abs := xabs;
  math_Sqrt := xsqrt;
  math_Inf := xInf
}.

(** The error function, [erf x = 2/sqrt(pi) * integral of exp(-t^2) over
    [0, x]]. *)
Definition gauss (t : R) : R := exp (- (t * t)).

Definition gauss_continuity : continuity gauss :=
  continuity_comp _ _
    (continuity_opp _
       (continuity_mult _ _ (derivable_continuous _ derivable_id)
                        (derivable_continuous _ derivable_id)))
    (derivable_continuous _ derivable_exp).

Definition gauss_integrable (a b : R) : Riemann_integrable gauss a b :=
  match Rle_dec a b with
  | left Hab =>
      continuity_implies_RiemannInt Hab (fun x _ => gauss_continuity x)
  | right Hba =>
      RiemannInt_P1
        (continuity_implies_RiemannInt (Rlt_le _ _ (Rnot_le_lt _ _ Hba))
           (fun x _ => gauss_continuity x))
  end.

Definition erf (x : R) : R :=
  2 / sqrt PI * RiemannInt (gauss_integrable 0 x).

Definition xlog (a : xreal) : xreal :=
  match a with
  | Fin x => if Rltb x 0 then NotNum else if Reqb x 0 then NegInf else Fin (ln x)
  | PosInf => PosInf
  | NegInf | NotNum => NotNum
  end.

Definition xerf (a : xreal) : xreal :=
  match a with
  | Fin x => Fin (erf x)
  | PosInf => Fin 1
  | NegInf => Fin (-1)
  | NotNum => NotNum
  end.

#[global] Instance lib : MathLib xreal := {
  math_Log := xlog;
  math_Erf := xerf
}.

End Exact.

(** The exponential on the extended reals. *)
Definition xexp (a : Exact.xreal) : Exact.xreal :=
  match a with
  | Exact.Fin x => Exact.Fin (exp x)
  | Exact.PosInf => Exact.PosInf
  | Exact.NegInf => Exact.Fin 0
  | Exact.NotNum => Exact.NotNum
  end.

#[global] Instance exact_exp : MathExp Exact.xreal := {
  math_Exp := xexp
}.

(* ================================================================== *)
(** * What the specification speaks of *)

Definition is_panic {A} (r : result A) : bool :=
  match r with
  | Ok _ => false
  | Panic _ => true
  end.

Section Polynomials.
Context {F : Type} {ops : Float64 F}.
Local Open Scope f64_scope.

(** The polynomial with coefficients [a] (constant term first) at [x], by
    Horner's method: [a0 + x*(a1 + x*(... + x*a_last))], the innermost
    product taken first. *)
Fixpoint horner (x : F) (a : list F) : F :=
  match a with
  | [] => 0
  | c :: a' =>
      match a' with
      | [] => c
      | _ :: _ => x * horner x a' + c
      end
  end.

(** [rateval(A, B, x)] of the specification: [P(x)/Q(x)]. *)
Definition rational (a b : list F) (x : F) : F := horner x a / horner x b.
End Polynomials.

Section FittingVocabulary.
Context {F : Type} {ops : Float64 F}.

(** The weights are absent, or there is one per sample. *)
Definition weights_match (samples weights : list F) : bool :=
  ((len weights =? 0) || (len samples =? len weights))%Z.

(** The sum of the sample weights; the sample count when they are absent. *)
Definition sum_of_weights (samples weights : list F) : F :=
  if (len weights =? 0)%Z then f_of_int (len samples)
  else floats_Sum weights.

(** The four malformed inputs that the specification lists for
    [FitPrior]: weights given with another length than the samples; prior
    value and weight of different lengths; a prior array longer than 2;
    exactly one of prior value and prior weight given. *)
Definition listed_fault (samples weights priorValue priorWeight : list F)
  : bool :=
  (negb (len weights =? 0)%Z && negb (len samples =? len weights)%Z)
  || negb (len priorValue =? len priorWeight)%Z
  || ((2 <? len priorValue)%Z || (2 <? len priorWeight)%Z)
  || xorb (len priorValue =? 0)%Z (len priorWeight =? 0)%Z.
End FittingVocabulary.

Section DerivativeVocabulary.
Context {F : Type} {ops : Float64 F}.
Local Open Scope f64_scope.

(** The partial derivatives of the log-density with respect to the mean
    and to the scale, as the specification's claim writes them:
    [(x - mean)/scale^2] and [-1/scale + (x - mean)^2/scale^3]. *)
Definition dLogProb_dParam (n : @Normal F) (x : F) : list F :=
  [ (x - Mu n) / (Sigma n * Sigma n);
    - (1 / Sigma n)
    + (x - Mu n) * (x - Mu n) / (Sigma n * Sigma n * Sigma n) ].
End DerivativeVocabulary.

Section QuantileVocabulary.
Context {F : Type} {ops : Float64 F} {lib : MathLib F}.
Local Open Scope f64_scope.

(** The value [zQuantile] computes away from its two boundary cases. *)
Definition zQuantile_regions (p : F) : F :=
  let dp := p - 0.5 in
  if math_Abs dp <=? 0.425 then
    dp * rational zQuantSmallA zQuantSmallB (0.180625 - dp * dp)
  else
    let pp := if p <? 0.5 then p else 1 - p in
    let r := math_Sqrt (- math_Log pp) in
    let x := if r <=? 5.0
             then rational zQuantInterA zQuantInterB (r - 1.6)
             else rational zQuantTailA zQuantTailB (r - 5.0) in
    if p <? 0.5 then - x else x.

End QuantileVocabulary.

Section ExactVocabulary.
Import Exact.
Local Open Scope R_scope.

(** The real numbers behind the statistics. *)
Definition real_weight_sum (xs ws : list R) : R :=
  match ws with
  | [] => IZR (len xs)
  | _ => fold_left Rplus ws 0
  end.

Definition real_mean (xs ws : list R) : R :=
  match ws with
  | [] => fold_left Rplus xs 0 / IZR (len xs)
  | _ => fold_left Rplus (map (fun '(w, v) => (w * v)) (combine ws xs)) 0
         / fold_left Rplus ws 0
  end.

Definition real_moment2 (xs : list R) (mean : R) (ws : list R) : R :=
  match ws with
  | [] => fold_left Rplus (map (fun v => ((v - mean) * (v - mean))) xs) 0
          / IZR (len xs)
  | _ => fold_left Rplus
           (map (fun '(w, v) => (w * ((v - mean) * (v - mean))))
                (combine ws xs)) 0
         / fold_left Rplus ws 0
  end.

(** The polynomial [c0 + c1*x + c2*x^2 + ...] as a sum of powers, the
    first coefficient having the power [x^k]. *)
Fixpoint power_sum (x : R) (cs : list R) (k : nat) : R :=
  match cs with
  | [] => 0
  | c :: cs' => c * x ^ k + power_sum x cs' (S k)
  end.

(** The log-density as a real function of mean, scale and point. *)
Definition LogProb_real (m s x : R) : R :=
  lit_to_R negLogRoot2Pi - ln s - (x - m) * (x - m) / (2 * s * s).
End ExactVocabulary.

(* ================================================================== *)
(** * Slices and int64 *)

Lemma wrap64_small (z : Z) : (- 2 ^ 63 <= z < 2 ^ 63)%Z -> wrap64 z = z.
Proof.
  intros Hz. unfold wrap64.
  rewrite Z.mod_small; lia.
Qed.

Lemma index_nth_error {A} (s : list A) (i : nat) (a : A) :
  nth_error s i = Some a -> index (M := result) s (Z.of_nat i) = Ok a.
Proof.
  intros Hi. unfold index.
  destruct (Z.ltb_spec (Z.of_nat i) 0) as [Hneg | _]; [lia |].
  now rewrite Nat2Z.id, Hi.
Qed.

Lemma nth_error_skipn_cons {A} (s : list A) (i : nat) (a : A) :
  nth_error s i = Some a -> skipn i s = a :: skipn (S i) s.
Proof.
  revert i. induction s as [| b s IH]; intros [| i] Hi; simpl in *;
    try discriminate.
  - now injection Hi as ->.
  - now apply IH.
Qed.

Lemma len_nonneg {A} (s : list A) : (0 <= len s)%Z.
Proof. unfold len. lia. Qed.

Lemma len_0 {A} (s : list A) : len s = 0%Z -> s = [].
Proof. destruct s; [easy | unfold len; simpl; lia]. Qed.

Lemma len_1 {A} (s : list A) : len s = 1%Z -> exists a, s = [a].
Proof.
  destruct s as [| a [| b s]]; unfold len; simpl; try lia.
  intros _. now exists a.
Qed.

Lemma len_2 {A} (s : list A) : len s = 2%Z -> exists a b, s = [a; b].
Proof.
  destruct s as [| a [| b [| c s]]]; unfold len; simpl; try lia.
  intros _. now exists a, b.
Qed.

(* ================================================================== *)
(** * The rational-polynomial evaluator *)

Section Rateval.
Context {F : Type} {ops : Float64 F}.
Local Open Scope f64_scope.

Lemma horner_cons (x c d : F) (a : list F) :
  horner x (c :: d :: a) = x * horner x (d :: a) + c.
Proof. reflexivity. Qed.

Lemma rateval_loop_S (a : list F) (x : F) (i : nat) (u : F) :
  rateval_loop a x (S i) u =
  (c <- index a (Z.of_nat i) ;; rateval_loop a x i (x * u + c)).
Proof. reflexivity. Qed.

(** The loop invariant: entering a round with counter [i], [u] is the
    value of the polynomial with coefficients [a[i:]]. *)
Lemma rateval_loop_horner (a : list F) (x : F) (i : nat) :
  (i < List.length a)%nat ->
  rateval_loop a x i (horner x (skipn i a)) = Ok (horner x a).
Proof.
  induction i as [| i IH]; intros Hi.
  - reflexivity.
  - destruct (nth_error a i) as [c |] eqn:Hc;
      [| apply nth_error_None in Hc; lia].
    destruct (nth_error a (S i)) as [d |] eqn:Hd;
      [| apply nth_error_None in Hd; lia].
    rewrite rateval_loop_S, (index_nth_error _ _ Hc). simpl bind.
    replace (x * horner x (skipn (S i) a) + c) with (horner x (skipn i a)).
    + apply IH. lia.
    + rewrite (nth_error_skipn_cons _ _ Hc), (nth_error_skipn_cons _ _ Hd).
      apply horner_cons.
Qed.

(** One half of [rateval]: [u = a[n-1]] followed by the loop. *)
Lemma rateval_half (a : list F) (x : F) :
  a <> [] -> (len a < 2 ^ 63)%Z ->
  (u <- index a (int64_sub (len a) 1) ;;
   rateval_loop a x (Z.to_nat (int64_sub (len a) 1)) u) = Ok (horner x a).
Proof.
  intros Ha Hlen. unfold len in *.
  assert (Hpos : (0 < List.length a)%nat) by (destruct a; [easy | simpl; lia]).
  unfold int64_sub. rewrite wrap64_small by lia.
  replace (Z.of_nat (List.length a) - 1)%Z
    with (Z.of_nat (List.length a - 1)) by lia.
  rewrite Nat2Z.id.
  destruct (nth_error a (List.length a - 1)) as [c |] eqn:Hc;
    [| apply nth_error_None in Hc; lia].
  rewrite (index_nth_error _ _ Hc). simpl bind.
  assert (Hlast : skipn (List.length a - 1) a = [c]).
  { rewrite (nth_error_skipn_cons _ _ Hc). f_equal.
    apply skipn_all2. lia. }
  replace c with (horner x (skipn (List.length a - 1) a))
    by now rewrite Hlast.
  apply rateval_loop_horner. lia.
Qed.

(** C7. For non-empty coefficient slices [a] and [b] with [na = len(a)]
    and [nb = len(b)], [rateval] returns [P(x)/Q(x)], where [P] and [Q]
    have constant terms [a[0]], [b[0]] and leading terms [a[na-1]],
    [b[nb-1]] and are evaluated by Horner's method from the leading term
    down; it returns a value and touches nothing else. *)
Theorem rateval_horner_quotient (a b : list F) (x : F) :
  a <> [] -> b <> [] -> (len a < 2 ^ 63)%Z -> (len b < 2 ^ 63)%Z ->
  rateval a (len a) b (len b) x = Ok (horner x a / horner x b).
Proof.
  intros Ha Hb Hla Hlb. unfold rateval.
  pose proof (rateval_half x Ha Hla) as Hu.
  pose proof (rateval_half x Hb Hlb) as Hv.
  simpl bind in *.
  destruct (index a (int64_sub (len a) 1)) as [u0 |]; [| discriminate].
  rewrite Hu.
  destruct (index b (int64_sub (len b) 1)) as [v0 |]; [| discriminate].
  now rewrite Hv.
Qed.

End Rateval.

(* ================================================================== *)
(** * The quantile dispatcher *)

Section ZQuantile.
Context {F : Type} {ops : Float64 F} {lib : MathLib F}.
Local Open Scope f64_scope.

Lemma zQuantSmall_rational (q : F) :
  zQuantSmall q =
  Ok (q * rational zQuantSmallA zQuantSmallB (0.180625 - q * q)).
Proof. reflexivity. Qed.

Lemma zQuantIntermediate_rational (r : F) :
  zQuantIntermediate r = Ok (rational zQuantInterA zQuantInterB (r - 1.6)).
Proof. reflexivity. Qed.

Lemma zQuantTail_rational (r : F) :
  zQuantTail r = Ok (rational zQuantTailA zQuantTailB (r - 5.0)).
Proof. reflexivity. Qed.

Lemma zQuantile_inner (p : F) :
  (p =? 1.0) = false -> (p =? 0.0) = false ->
  zQuantile p = Ok (zQuantile_regions p).
Proof.
  intros H1 H0. unfold zQuantile, zQuantile_regions.
  rewrite H1, H0. cbv zeta.
  destruct (math_Abs (p - 0.5) <=? 0.425); [apply zQuantSmall_rational |].
  rewrite zQuantIntermediate_rational, zQuantTail_rational.
  destruct (_ <=? 5.0); simpl bind; destruct (p <? 0.5); reflexivity.
Qed.

(** The dispatcher never panics: its tables have the eight entries it
    asks [rateval] for. *)
Lemma zQuantile_returns (p : F) : exists z, zQuantile p = Ok z.
Proof.
  unfold zQuantile.
  destruct (p =? 1.0); [eauto |].
  destruct (p =? 0.0); [eauto |]. cbv zeta.
  destruct (math_Abs (p - 0.5) <=? 0.425);
    [rewrite zQuantSmall_rational; eauto |].
  rewrite zQuantIntermediate_rational, zQuantTail_rational.
  destruct (_ <=? 5.0); simpl bind; destruct (p <? 0.5); eauto.
Qed.

(** C1. For a probability [p] strictly between 0 and 1, [zQuantile]
    follows the three-region scheme: with [dp = p - 0.5], in the central
    region [|dp| <= 0.425] it returns
    [dp * rateval(A_small, B_small, 0.180625 - dp^2)]; otherwise, with
    [pp = p] when [p < 0.5] and [1 - p] if not, and [r = sqrt(-ln pp)],
    it evaluates [rateval(A_inter, B_inter, r - 1.6)] when [r <= 5.0] and
    [rateval(A_tail, B_tail, r - 5.0)] when [r > 5.0], and negates the
    result exactly when [p < 0.5]. *)
Theorem zQuantile_three_regions {laws : Float64Laws ops} (p : F) :
  (0 <? p) = true -> (p <? 1) = true ->
  zQuantile p =
  Ok (let dp := p - 0.5 in
      if math_Abs dp <=? 0.425 then
        dp * rational zQuantSmallA zQuantSmallB (0.180625 - dp * dp)
      else
        let pp := if p <? 0.5 then p else 1 - p in
        let r := math_Sqrt (- math_Log pp) in
        let x := if r <=? 5.0
                 then rational zQuantInterA zQuantInterB (r - 1.6)
                 else rational zQuantTailA zQuantTailB (r - 5.0) in
        if p <? 0.5 then - x else x).
Proof.
  intros Hlo Hhi. apply zQuantile_inner.
  - now apply f_ltb_neq.
  - now apply f_gtb_neq.
Qed.

Lemma Quantile_out_of_bounds (n : @Normal F) (p : F) :
  (p <? 0) || (p >? 1) = true ->
  Quantile n p = Panic "dist: percentile out of bounds".
Proof. intros H. unfold Quantile. now rewrite H. Qed.

Lemma Quantile_in_bounds (n : @Normal F) (p : F) :
  (p <? 0) || (p >? 1) = false ->
  exists z, zQuantile p = Ok z /\ Quantile n p = Ok (Mu n + Sigma n * z).
Proof.
  intros H. destruct (zQuantile_returns p) as [z Hz].
  exists z. split; [assumption |].
  unfold Quantile. rewrite H, Hz. reflexivity.
Qed.

Lemma Quantile_panics (n : @Normal F) (p : F) :
  is_panic (Quantile n p) = (p <? 0) || (p >? 1).
Proof.
  destruct ((p <? 0) || (p >? 1)) eqn:H.
  - now rewrite Quantile_out_of_bounds.
  - destruct (Quantile_in_bounds n p H) as [z [_ ->]]. reflexivity.
Qed.

End ZQuantile.

(* ================================================================== *)
(** * The derivative with respect to the parameters *)

Section DLogProb.
Context {F : Type} {ops : Float64 F}.
Local Open Scope f64_scope.

Lemma DLogProbDParam_length (n : @Normal F) (x : F) (deriv : list F) :
  len deriv <> 2%Z ->
  DLogProbDParam n x deriv = Panic "dist: slice length mismatch".
Proof.
  intros Hlen. unfold DLogProbDParam, NumParameters.
  apply Z.eqb_neq in Hlen. now rewrite Hlen.
Qed.

(** What the code writes into a slice of length 2. *)
Lemma DLogProbDParam_writes (n : @Normal F) (x d0 d1 : F) :
  DLogProbDParam n x [d0; d1]
  = Ok [ Mu n * (x - Mu n) / (Sigma n * Sigma n);
         1 / Sigma n * (-1 + (x - Mu n) * (x - Mu n) / 2) ].
Proof. reflexivity. Qed.

End DLogProb.

(* ================================================================== *)
(** * Binary64: comparison and the special values *)

Section Binary64Facts.
Import Binary64.
Local Open Scope f64_scope.

Lemma SFcompare_antisym (x y : spec_float) :
  SFcompare y x = option_map CompOpp (SFcompare x y).
Proof.
  destruct x as [sx | sx | | sx mx ex], y as [sy | sy | | sy my ey];
    simpl; try reflexivity;
    try (destruct sx; reflexivity); try (destruct sy; reflexivity);
    try (destruct sx, sy; reflexivity).
  assert (Hm : Pos.compare_cont Eq my mx = CompOpp (Pos.compare_cont Eq mx my))
    by now rewrite Pos.compare_cont_antisym.
  destruct sx, sy; simpl; try reflexivity;
    rewrite (Z.compare_antisym ex ey), Hm;
    destruct (ex ?= ey)%Z; simpl; try reflexivity;
    now rewrite ?CompOpp_involutive.
Qed.

Lemma b64_ltb_neq (x y : float) : (x <? y) = true -> (x =? y) = false.
Proof.
  simpl. rewrite ltb_spec, eqb_spec. unfold SFltb, SFeqb.
  now destruct (SFcompare _ _) as [[| |] |].
Qed.

Lemma b64_gtb_neq (x y : float) : (y <? x) = true -> (x =? y) = false.
Proof.
  simpl. rewrite ltb_spec, eqb_spec. unfold SFltb, SFeqb.
  rewrite (SFcompare_antisym (Prim2SF y) (Prim2SF x)).
  now destruct (SFcompare (Prim2SF y) (Prim2SF x)) as [[| |] |].
Qed.

Lemma b64_leb_not_gtb (x y : float) : (x <=? y) = true -> (y <? x) = false.
Proof.
  simpl. rewrite ltb_spec, leb_spec. unfold SFltb, SFleb.
  rewrite (SFcompare_antisym (Prim2SF x) (Prim2SF y)).
  now destruct (SFcompare (Prim2SF x) (Prim2SF y)) as [[| |] |].
Qed.

#[global] Instance b64_laws : Float64Laws Binary64.ops.
Proof. split; [exact b64_ltb_neq | exact b64_gtb_neq]. Qed.

Lemma b64_Inf_SF (z : Z) :
  Prim2SF (Inf z) = S754_infinity (negb (0 <=? z)%Z).
Proof. unfold Inf. now destruct (0 <=? z)%Z. Qed.

(** A positive scale times an infinity is that infinity. *)
Lemma b64_mul_pos_inf (s : float) (z : Z) :
  (0 <? s) = true -> s * math_Inf z = math_Inf z.
Proof.
  simpl. intros Hs. apply Prim2SF_inj.
  rewrite ltb_spec in Hs. rewrite mul_spec, b64_Inf_SF.
  change (Prim2SF (of_lit 0)) with (S754_zero false) in Hs.
  unfold SF64mul.
  destruct (Prim2SF s) as [sg | sg | | sg m e]; try discriminate;
    destruct sg; try discriminate; reflexivity.
Qed.

(** A finite mean plus an infinity is that infinity. *)
Lemma b64_add_finite_inf (m : float) (z : Z) :
  is_finite m = true -> m + math_Inf z = math_Inf z.
Proof.
  simpl. unfold is_finite. intros Hm. apply Prim2SF_inj.
  rewrite add_spec, b64_Inf_SF. unfold SF64add.
  destruct (Prim2SF m); try discriminate; reflexivity.
Qed.

(** A finite positive scale times zero is (positive) zero. *)
Lemma b64_mul_finite_zero (s : float) :
  is_finite s = true -> (0 <? s) = true -> s * 0 = 0%float.
Proof.
  simpl. unfold is_finite. intros Hf Hs. apply Prim2SF_inj.
  rewrite ltb_spec in Hs. rewrite mul_spec.
  change (Prim2SF (of_lit 0)) with (S754_zero false) in *.
  unfold SF64mul.
  destruct (Prim2SF s) as [sg | sg | | sg m e]; try discriminate;
    destruct sg; try discriminate; reflexivity.
Qed.

Lemma SFcompare_refl (x : spec_float) :
  x <> S754_nan -> SFcompare x x = Some Eq.
Proof.
  destruct x as [s | s | | s m e]; simpl; try easy;
    destruct s; try reflexivity;
    now rewrite Z.compare_refl, Pos.compare_cont_refl.
Qed.

(** Adding zero to a finite mean gives a number equal to it ... *)
Lemma b64_add_zero_eqb (m : float) :
  is_finite m = true -> (m + 0 =? m)%float = true.
Proof.
  unfold is_finite. intros Hm.
  rewrite eqb_spec, add_spec. unfold SF64add, SFeqb.
  change (Prim2SF 0%float) with (S754_zero false).
  destruct (Prim2SF m) as [sg | sg | | sg mm e] eqn:E; try discriminate.
  - now destruct sg.
  - now rewrite SFcompare_refl.
Qed.

(** ... and the very same number, unless the mean is the negative zero
    (whose sum with zero is the positive zero). *)
Lemma b64_add_zero_same (m : float) :
  is_finite m = true -> Prim2SF m <> S754_zero true ->
  (m + 0)%float = m.
Proof.
  unfold is_finite. intros Hm Hnz. apply Prim2SF_inj.
  rewrite add_spec. unfold SF64add.
  change (Prim2SF 0%float) with (S754_zero false).
  destruct (Prim2SF m) as [sg | sg | | sg mm e]; try discriminate.
  - now destruct sg.
  - reflexivity.
Qed.

End Binary64Facts.

(* ================================================================== *)
(** * Exact arithmetic: comparison *)

Section ExactFacts.
Import Exact.
Local Open Scope f64_scope.

Lemma Rltb_true (a b : R) : Rltb a b = true <-> (a < b)%R.
Proof. unfold Rltb. destruct (Rlt_dec a b); intuition discriminate. Qed.

Lemma Reqb_true (a b : R) : Reqb a b = true <-> a = b.
Proof. unfold Reqb. destruct (Req_dec_T a b); intuition discriminate. Qed.

Lemma Rltb_false (a b : R) : Rltb a b = false <-> (b <= a)%R.
Proof.
  unfold Rltb. destruct (Rlt_dec a b); split; intros; try easy; lra.
Qed.

Lemma Reqb_false (a b : R) : Reqb a b = false <-> a <> b.
Proof. unfold Reqb. destruct (Req_dec_T a b); intuition discriminate. Qed.

Lemma exact_ltb_neq (x y : xreal) : (x <? y) = true -> (x =? y) = false.
Proof.
  destruct x, y; simpl; try easy.
  rewrite Rltb_true, Reqb_false. lra.
Qed.

Lemma exact_gtb_neq (x y : xreal) : (y <? x) = true -> (x =? y) = false.
Proof.
  destruct x, y; simpl; try easy.
  rewrite Rltb_true, Reqb_false. lra.
Qed.

#[global] Instance exact_laws : Float64Laws Exact.ops.
Proof. split; [exact exact_ltb_neq | exact exact_gtb_neq]. Qed.

End ExactFacts.

(* ================================================================== *)
(** * Fitting: the paths through [FitPrior] *)

Section Fitting.
Context {F : Type} {ops : Float64 F}.
Local Open Scope f64_scope.

Implicit Types samples weights priorValue priorWeight : list F.
Implicit Type n : @Normal F.

Lemma weights_check samples weights :
  negb (len weights =? 0)%Z && negb (len samples =? len weights)%Z
  = negb (weights_match samples weights).
Proof.
  unfold weights_match.
  now destruct (len weights =? 0)%Z, (len samples =? len weights)%Z.
Qed.

(** The first check. *)
Lemma FitPrior_size_mismatch samples weights priorValue priorWeight n :
  weights_match samples weights = false ->
  FitPrior samples weights priorValue priorWeight n
  = (n, Panic "dist: slice size mismatch").
Proof.
  intros Hw. unfold FitPrior. rewrite weights_check, Hw. reflexivity.
Qed.

(** The second check. *)
Lemma FitPrior_length_mismatch samples weights priorValue priorWeight n :
  weights_match samples weights = true ->
  len priorValue <> len priorWeight ->
  FitPrior samples weights priorValue priorWeight n
  = (n, Panic "normal: mismatch in prior lengths").
Proof.
  intros Hw Hne. unfold FitPrior. rewrite weights_check, Hw.
  apply Z.eqb_neq in Hne. rewrite Hne. reflexivity.
Qed.

(** The third check. *)
Lemma FitPrior_too_many samples weights priorValue priorWeight n :
  weights_match samples weights = true ->
  len priorValue = len priorWeight ->
  (2 < len priorValue)%Z ->
  FitPrior samples weights priorValue priorWeight n
  = (n, Panic "normal: too many prior values").
Proof.
  intros Hw Heq Hgt. unfold FitPrior. rewrite weights_check, Hw.
  apply Z.eqb_eq in Heq. rewrite Heq, Z.gtb_ltb.
  apply Z.ltb_lt in Hgt. rewrite Hgt. reflexivity.
Qed.

(** No prior: the fit of the samples alone. *)
Lemma FitPrior_no_prior samples weights n :
  weights_match samples weights = true ->
  let m := stat_Mean samples weights in
  let v := stat_Moment 2 samples m weights in
  let sumWeights := sum_of_weights samples weights in
  let newMean := m * sumWeights / sumWeights in
  let newScale := math_Sqrt (v * sumWeights / sumWeights) in
  FitPrior samples weights [] [] n
  = ({| Mu := newMean; Sigma := newScale |},
     Ok ([newMean; newScale], [sumWeights; sumWeights])).
Proof.
  intros Hw. unfold FitPrior. rewrite weights_check, Hw. reflexivity.
Qed.

(** A prior of length 1 passes the three checks and is taken as a prior;
    the mean is written, and the read of [priorWeight[1]] is out of
    range. *)
Lemma FitPrior_short_prior samples weights (pv0 pw0 : F) n :
  weights_match samples weights = true ->
  let m := stat_Mean samples weights in
  let sumWeights := sum_of_weights samples weights in
  FitPrior samples weights [pv0] [pw0] n
  = ({| Mu := (m * sumWeights + pv0 * pw0) / (sumWeights + pw0);
        Sigma := Sigma n |},
     Panic index_out_of_range).
Proof.
  intros Hw. unfold FitPrior. rewrite weights_check, Hw. reflexivity.
Qed.

(** C3. With weights that match the samples and prior statistics of
    length 2, [FitPrior] computes the total variance as the uncorrected
    weighted sample variance [v] times the sample-weight sum, plus
    [priorWeight[1] * priorValue[1]^2], plus the cross term
    [priorWeight[0] * sumWeights * (m - priorValue[0])^2 / totalWeight];
    it sets the new scale to [sqrt(totalVariance / totalWeight)] and
    returns value [[newMean, newScale]] and weight
    [[sumWeights + priorWeight[0], sumWeights + priorWeight[1]]]. *)
Theorem FitPrior_full_prior samples weights (pv0 pv1 pw0 pw1 : F) n :
  weights_match samples weights = true ->
  let m := stat_Mean samples weights in
  let v := stat_Moment 2 samples m weights in
  let sumWeights := sum_of_weights samples weights in
  let totalWeight := sumWeights + pw0 in
  let totalVariance :=
    v * sumWeights
    + pw1 * pv1 * pv1
    + pw0 * sumWeights * (m - pv0) * (m - pv0) / totalWeight in
  let newMean := (m * sumWeights + pv0 * pw0) / totalWeight in
  let newScale := math_Sqrt (totalVariance / totalWeight) in
  FitPrior samples weights [pv0; pv1] [pw0; pw1] n
  = ({| Mu := newMean; Sigma := newScale |},
     Ok ([newMean; newScale], [sumWeights + pw0; sumWeights + pw1])).
Proof.
  intros Hw. cbv zeta. unfold FitPrior, sum_of_weights.
  rewrite weights_check, Hw.
  cbn. reflexivity.
Qed.

(** When [FitPrior] panics, in full: on one of the listed faults, and on
    a prior of length 1. *)
Lemma FitPrior_panics samples weights priorValue priorWeight n :
  is_panic (snd (FitPrior samples weights priorValue priorWeight n))
  = listed_fault samples weights priorValue priorWeight
    || ((len priorValue =? 1)%Z && (len priorWeight =? 1)%Z).
Proof.
  pose proof (len_nonneg priorValue) as Hv0.
  pose proof (len_nonneg priorWeight) as Hw0.
  unfold listed_fault. rewrite weights_check.
  destruct (weights_match samples weights) eqn:Hw; simpl negb.
  - destruct (Z.eq_dec (len priorValue) (len priorWeight)) as [Heq | Hne].
    + destruct (Z_lt_dec 2 (len priorValue)) as [Hgt | Hle].
      * rewrite FitPrior_too_many by assumption.
        apply Z.ltb_lt in Hgt. rewrite Hgt. simpl.
        now rewrite orb_true_r.
      * assert (Hcases : len priorValue = 0%Z \/ len priorValue = 1%Z
                         \/ len priorValue = 2%Z) by lia.
        destruct Hcases as [H0 | [H1 | H2]].
        -- rewrite (len_0 _ H0), (len_0 priorWeight) by lia.
           now rewrite FitPrior_no_prior.
        -- destruct (len_1 _ H1) as [a ->].
           destruct (len_1 priorWeight) as [b ->]; [lia |].
           now rewrite FitPrior_short_prior.
        -- destruct (len_2 _ H2) as [a [a' ->]].
           destruct (len_2 priorWeight) as [b [b' ->]]; [lia |].
           unfold FitPrior. rewrite weights_check, Hw. reflexivity.
    + rewrite FitPrior_length_mismatch by assumption.
      apply Z.eqb_neq in Hne. now rewrite Hne.
  - now rewrite FitPrior_size_mismatch.
Qed.

(** Every way a call can end. *)
Lemma FitPrior_outcomes samples weights priorValue priorWeight n :
  let r := snd (FitPrior samples weights priorValue priorWeight n) in
  (exists v, r = Ok v)
  \/ r = Panic "dist: slice size mismatch"
  \/ r = Panic "normal: mismatch in prior lengths"
  \/ r = Panic "normal: too many prior values"
  \/ r = Panic index_out_of_range.
Proof.
  pose proof (len_nonneg priorValue) as Hv0.
  cbv zeta.
  destruct (weights_match samples weights) eqn:Hw;
    [| rewrite FitPrior_size_mismatch by assumption; right; left; reflexivity].
  destruct (Z.eq_dec (len priorValue) (len priorWeight)) as [Heq | Hne];
    [| rewrite FitPrior_length_mismatch by assumption;
       right; right; left; reflexivity].
  destruct (Z_lt_dec 2 (len priorValue)) as [Hgt | Hle];
    [rewrite FitPrior_too_many by assumption; do 3 right; left; reflexivity |].
  assert (Hcases : len priorValue = 0%Z \/ len priorValue = 1%Z
                   \/ len priorValue = 2%Z) by lia.
  destruct Hcases as [H0 | [H1 | H2]].
  - rewrite (len_0 _ H0), (len_0 priorWeight) by lia.
    rewrite FitPrior_no_prior by assumption. left. eexists. reflexivity.
  - destruct (len_1 _ H1) as [a ->].
    destruct (len_1 priorWeight) as [b ->]; [lia |].
    rewrite FitPrior_short_prior by assumption. do 4 right. reflexivity.
  - destruct (len_2 _ H2) as [a [a' ->]].
    destruct (len_2 priorWeight) as [b [b' ->]]; [lia |].
    left. unfold FitPrior. rewrite weights_check, Hw. eexists. reflexivity.
Qed.

(** C10, as the code has it. The two dedicated branches for a partial
    prior ("prior weight provided but not the value", "prior value
    provided but not the weight") are unreachable for every input: a call
    with exactly one of [priorValue], [priorWeight] non-empty has already
    panicked before them, leaving the receiver untouched -- at the
    length-equality check with "mismatch in prior lengths", or, when the
    weights do not match the samples, at the still earlier check with
    "slice size mismatch". *)
Theorem FitPrior_partial_prior samples weights priorValue priorWeight n :
  let r := snd (FitPrior samples weights priorValue priorWeight n) in
  r <> Panic "normal: prior weight provided but not the value"
  /\ r <> Panic "normal: prior value provided but not the weight"
  /\ (xorb (len priorValue =? 0)%Z (len priorWeight =? 0)%Z = true ->
      FitPrior samples weights priorValue priorWeight n
      = (n, Panic (if weights_match samples weights
                   then "normal: mismatch in prior lengths"
                   else "dist: slice size mismatch"))).
Proof.
  cbv zeta.
  pose proof (FitPrior_outcomes samples weights priorValue priorWeight n)
    as Hout.
  cbv zeta in Hout.
  repeat split.
  - destruct Hout as [[v ->] | [-> | [-> | [-> | ->]]]]; discriminate.
  - destruct Hout as [[v ->] | [-> | [-> | [-> | ->]]]]; discriminate.
  - intros Hx.
    destruct (weights_match samples weights) eqn:Hw;
      [| now apply FitPrior_size_mismatch].
    apply FitPrior_length_mismatch; [assumption |].
    intros Heq. rewrite Heq in Hx.
    now destruct (len priorWeight =? 0)%Z.
Qed.

End Fitting.

(* ================================================================== *)
(** * The code on concrete binary64 inputs *)

Section Binary64Runs.
Import Binary64.
Local Open Scope f64_scope.

(** The conversion of constants agrees with the binary64 numbers that
    Rocq's own reader gives for the same decimals: the thresholds and
    offsets of the dispatcher, and its six tables. *)
#[warnings="-inexact-float"]
Lemma constants_binary64 :
  ([0.425; 0.180625; 0.5; 1.6; 5.0] : list float)
  = [0.425; 0.180625; 0.5; 1.6; 5.0]%float
  /\ zQuantSmallA = [3.387132872796366608; 133.14166789178437745; 1971.5909503065514427; 13731.693765509461125; 45921.953931549871457; 67265.770927008700853; 33430.575583588128105; 2509.0809287301226727]%float
  /\ zQuantSmallB = [1.0; 42.313330701600911252; 687.1870074920579083; 5394.1960214247511077; 21213.794301586595867; 39307.89580009271061; 28729.085735721942674; 5226.495278852854561]%float
  /\ zQuantInterA = [1.42343711074968357734; 4.6303378461565452959; 5.7694972214606914055; 3.64784832476320460504; 1.27045825245236838258; 0.24178072517745061177; 0.0227238449892691845833; 7.7454501427834140764e-4]%float
  /\ zQuantInterB = [1.0; 2.05319162663775882187; 1.6763848301838038494; 0.68976733498510000455; 0.14810397642748007459; 0.0151986665636164571966; 5.475938084995344946e-4; 1.05075007164441684324e-9]%float
  /\ zQuantTailA = [6.6579046435011037772; 5.4637849111641143699; 1.7848265399172913358; 0.29656057182850489123; 0.026532189526576123093; 0.0012426609473880784386; 2.71155556874348757815e-5; 2.01033439929228813265e-7]%float
  /\ zQuantTailB = [1.0; 0.59983220655588793769; 0.13692988092273580531; 0.0148753612908506148525; 7.868691311456132591e-4; 1.8463183175100546818e-5; 1.4215117583164458887e-7; 2.04426310338993978564e-15]%float.
Proof. repeat split; vm_compute; reflexivity. Qed.

Lemma rateval_horner_quotient_witness :
  rateval (F := float) [1; 2; 3] 3 [4; 5] 2 2
  = Ok (horner 2 [1; 2; 3] / horner 2 [4; 5]).
Proof.
  apply (@rateval_horner_quotient float _ [1; 2; 3] [4; 5] 2);
    [discriminate | discriminate | reflexivity | reflexivity].
Defined.

(** The regression value of the specification: prior value [[0, 1]],
    prior weight [[1, 1]], one sample [5] of weight [1]. *)
Lemma FitPrior_full_prior_witness :
  FitPrior (F := float) [5] [1] [0; 1] [1; 1] {| Mu := 0; Sigma := 1 |}
  = ({| Mu := 2.5; Sigma := math_Sqrt 6.75 |},
     Ok ([2.5; math_Sqrt 6.75], [2; 2])).
Proof.
  exact (FitPrior_full_prior [5] [1] 0 1 1 1 {| Mu := 0; Sigma := 1 |}
           eq_refl).
Defined.

Lemma FitPrior_partial_prior_witness :
  xorb (len (A := float) [0%f64] =? 0)%Z (len (A := float) [] =? 0)%Z = true
  /\ FitPrior (F := float) [5] [] [0] [] {| Mu := 0; Sigma := 1 |}
     = ({| Mu := 0; Sigma := 1 |}, Panic "normal: mismatch in prior lengths").
Proof.
  split; [reflexivity |].
  exact (proj2 (proj2 (FitPrior_partial_prior [5] [] [0] []
                         {| Mu := 0; Sigma := 1 |})) eq_refl).
Defined.

(** C10, as stated, fails: with weights that do not match the samples,
    a call giving a prior value and no prior weight does not reach the
    length-equality check; it stops at "slice size mismatch". *)
Lemma partial_prior_stops_at_weights :
  xorb (len (A := float) [0%f64] =? 0)%Z (len (A := float) [] =? 0)%Z = true
  /\ snd (FitPrior (F := float) [5] [1; 2] [0] [] {| Mu := 0; Sigma := 1 |})
     = Panic "dist: slice size mismatch"
  /\ snd (FitPrior (F := float) [5] [1; 2] [0] [] {| Mu := 0; Sigma := 1 |})
     <> Panic "normal: mismatch in prior lengths".
Proof.
  split; [reflexivity |].
  split; [reflexivity | discriminate].
Qed.

(** C6 at a prior of length 1: none of the listed faults holds, the call
    panics all the same (index out of range on [priorWeight[1]]), and the
    receiver's mean has been overwritten by then. *)
Theorem FitPrior_short_prior_fault :
  listed_fault (F := float) [5] [1] [0] [1] = false
  /\ FitPrior (F := float) [5] [1] [0] [1] {| Mu := 0; Sigma := 1 |}
     = ({| Mu := 2.5; Sigma := 1 |},
        Panic "runtime error: index out of range").
Proof. split; reflexivity. Qed.

End Binary64Runs.

(* ================================================================== *)
(** * Quantile on binary64 *)

Section Binary64Quantile.
Import Binary64.
Local Open Scope f64_scope.

Context {lib : MathLib float}.

Lemma zQuantile_boundaries :
  zQuantile 0 = Ok neg_infinity /\ zQuantile 1 = Ok infinity.
Proof. split; reflexivity. Qed.

Lemma zQuantile_half : zQuantile 0.5 = Ok 0%float.
Proof. reflexivity. Qed.

Lemma Quantile_boundary (n : @Normal float) (p : float) (z : Z) :
  (p <? 0) || (p >? 1) = false ->
  zQuantile p = Ok (math_Inf z) ->
  is_finite (Mu n) = true -> (0 <? Sigma n) = true ->
  Quantile n p = Ok (math_Inf z).
Proof.
  intros Hp Hz Hmu Hsigma. unfold Quantile. rewrite Hp, Hz.
  cbn [bind result_monad]. rewrite (@b64_mul_pos_inf (Sigma n) z Hsigma).
  now rewrite (@b64_add_finite_inf (Mu n) z Hmu).
Qed.

(** C4. [Quantile(p)] panics exactly when [p < 0] or [p > 1]; for every
    [p] in [[0, 1]] it returns [mean + scale * zQuantile(p)]; the
    boundary values are not errors: for a finite mean and a positive
    scale, [Quantile(0)] is negative infinity and [Quantile(1)] positive
    infinity. *)
Theorem Quantile_contract (n : @Normal float) (p : float) :
  is_panic (Quantile n p) = (p <? 0) || (p >? 1)
  /\ ((0 <=? p) = true -> (p <=? 1) = true ->
      exists z, zQuantile p = Ok z
                /\ Quantile n p = Ok (Mu n + Sigma n * z))
  /\ (is_finite (Mu n) = true -> (0 <? Sigma n) = true ->
      Quantile n 0 = Ok neg_infinity /\ Quantile n 1 = Ok infinity).
Proof.
  split; [apply Quantile_panics |]. split.
  - intros Hlo Hhi. apply Quantile_in_bounds.
    apply orb_false_iff. split.
    + now apply b64_leb_not_gtb.
    + now apply b64_leb_not_gtb.
  - intros Hmu Hsigma. split.
    + now apply (Quantile_boundary n 0 (-1)).
    + now apply (Quantile_boundary n 1 1).
Qed.

(** C8. For a finite mean and a finite positive scale, [Quantile(0.5)]
    equals the mean: at [p = 0.5] the central branch is taken with
    [dp = 0], the standardized quantile is [0], and the affine transform
    gives back the mean -- the same [float64], except that the negative
    zero comes back as the zero it is equal to. *)
Theorem Quantile_median (n : @Normal float) :
  is_finite (Mu n) = true -> is_finite (Sigma n) = true ->
  (0 <? Sigma n) = true ->
  zQuantile 0.5 = Ok 0%float
  /\ exists r, Quantile n 0.5 = Ok r
               /\ (r =? Mu n) = true
               /\ (Prim2SF (Mu n) <> S754_zero true -> r = Mu n).
Proof.
  intros Hmu Hfin Hpos. split; [reflexivity |].
  exists (Mu n + 0)%float. split; [| split].
  - unfold Quantile.
    change ((0.5 <? 0) || (0.5 >? 1)) with false.
    rewrite zQuantile_half. cbn [bind result_monad].
    change 0%float with (f_lit (F := float) 0).
    now rewrite (@b64_mul_finite_zero (Sigma n) Hfin Hpos).
  - now apply b64_add_zero_eqb.
  - now apply b64_add_zero_same.
Qed.

End Binary64Quantile.

Section Binary64QuantileRuns.
Import Binary64.
Local Open Scope f64_scope.

Lemma Quantile_contract_witness :
  ((0 <=? (0.25 : float)) = true /\ ((0.25 : float) <=? 1) = true)
  /\ (is_finite 3 = true /\ (0 <? (2 : float)) = true)
  /\ Quantile (lib := no_math) {| Mu := 3; Sigma := 2 |} 0
     = Ok neg_infinity.
Proof.
  split; [split; reflexivity |]. split; [split; reflexivity |].
  exact (proj1 (proj2 (proj2 (@Quantile_contract no_math
                 {| Mu := 3; Sigma := 2 |} 0.25))
                 eq_refl eq_refl)).
Defined.

Lemma Quantile_median_witness :
  exists r : float,
    Quantile (lib := no_math) {| Mu := 3; Sigma := 2 |} 0.5 = Ok r
    /\ (r =? 3) = true.
Proof.
  destruct (@Quantile_median no_math {| Mu := 3; Sigma := 2 |})
    as [_ [r [Hr [Heq _]]]]; [reflexivity | reflexivity | reflexivity |].
  exists r. split; assumption.
Defined.

(** C2 at mean 2, scale 1 and [x = 3]: the derivative of the log-density
    with respect to [[mean, scale]] is [[1, 0]]; [DLogProbDParam] writes
    [[2, -0.5]] (the first entry carries a stray factor [mean], the
    second has lost its powers of [scale]).  A slice of another length
    is refused. *)
Theorem DLogProbDParam_at_2_1_3 :
  DLogProbDParam (F := float) {| Mu := 2; Sigma := 1 |} 3 [0; 0]
  = Ok [2; -0.5]
  /\ dLogProb_dParam (F := float) {| Mu := 2; Sigma := 1 |} 3 = [1; 0]
  /\ DLogProbDParam (F := float) {| Mu := 2; Sigma := 1 |} 3 [0]
     = Panic "dist: slice length mismatch".
Proof. repeat split; reflexivity. Qed.

End Binary64QuantileRuns.

(* ================================================================== *)
(** * The log-density and its derivatives over the reals *)

Section RealLogProb.
Import Exact.
Local Open Scope R_scope.

(** The partial derivative of the real log-density with respect to the
    mean ... *)
Lemma dLogProb_dMu (m s x : R) :
  s <> 0 ->
  derivable_pt_lim (fun mu => LogProb_real mu s x) m ((x - m) / (s * s)).
Proof.
  intros Hs. set (c := lit_to_R negLogRoot2Pi).
  apply (derivable_pt_lim_ext
           (fun mu => (c - ln s) + (- / (2 * s * s)) * ((x - mu) * (x - mu)))).
  { intros mu. unfold LogProb_real. fold c. field. assumption. }
  replace ((x - m) / (s * s))
    with (0 + (- / (2 * s * s)) * ((0 - 1) * (x - m) + (x - m) * (0 - 1)))
    by (field; assumption).
  apply (derivable_pt_lim_plus (fun _ => c - ln s)
           (fun mu => (- / (2 * s * s)) * ((x - mu) * (x - mu)))).
  - apply derivable_pt_lim_const.
  - apply (derivable_pt_lim_scal (fun mu => (x - mu) * (x - mu))).
    apply (derivable_pt_lim_mult (fun mu => x - mu) (fun mu => x - mu));
      apply (derivable_pt_lim_minus (fun _ => x) (fun mu => mu));
      (apply derivable_pt_lim_const || apply derivable_pt_lim_id).
Qed.

(** ... and with respect to the scale. *)
Lemma dLogProb_dSigma (m s x : R) :
  (0 < s) ->
  derivable_pt_lim (fun sigma => LogProb_real m sigma x) s
    (- (1 / s) + (x - m) * (x - m) / (s * s * s)).
Proof.
  intros Hs. set (c := lit_to_R negLogRoot2Pi).
  replace (- (1 / s) + (x - m) * (x - m) / (s * s * s))
    with ((0 - / s)
          - (0 * (2 * s * s)
             - ((0 * s + 2 * 1) * s + 2 * s * 1) * ((x - m) * (x - m)))
            / (2 * s * s)²)
    by (unfold Rsqr; field; lra).
  apply (derivable_pt_lim_minus (fun sigma => c - ln sigma)
           (fun sigma => (x - m) * (x - m) / (2 * sigma * sigma))).
  - apply (derivable_pt_lim_minus (fun _ => c) ln).
    + apply derivable_pt_lim_const.
    + now apply derivable_pt_lim_ln.
  - apply (derivable_pt_lim_div (fun _ => (x - m) * (x - m))
             (fun sigma => 2 * sigma * sigma)).
    + apply derivable_pt_lim_const.
    + apply (derivable_pt_lim_mult (fun z => 2 * z) (fun z => z)).
      * apply (derivable_pt_lim_mult (fun _ => 2) (fun z => z)).
        -- apply derivable_pt_lim_const.
        -- apply derivable_pt_lim_id.
      * apply derivable_pt_lim_id.
    + nra.
Qed.

End RealLogProb.

(* ================================================================== *)
(** * The distribution in exact arithmetic *)

Section ExactDistribution.
Import Exact.
Local Open Scope f64_scope.

Lemma lit_to_R_pos (l : lit) : (0 < lit_mantissa l)%Z -> (0 < lit_to_R l)%R.
Proof.
  intros Hm. unfold lit_to_R.
  destruct (lit_exponent l <? 0)%Z eqn:He.
  - apply Rdiv_lt_0_compat; apply IZR_lt; [assumption |].
    apply Z.pow_pos_nonneg; lia.
  - apply IZR_lt. apply Z.ltb_ge in He.
    apply Z.mul_pos_pos; [assumption |]. apply Z.pow_pos_nonneg; lia.
Qed.

Lemma lit_zero : lit_to_R 0 = 0%R.
Proof. reflexivity. Qed.

Lemma lit_one : lit_to_R 1 = 1%R.
Proof. reflexivity. Qed.

Lemma lit_half : lit_to_R 0.5 = (1 / 2)%R.
Proof. unfold lit_to_R. simpl. lra. Qed.

Lemma exact_div_Fin (a b : R) : b <> 0%R -> Fin a / Fin b = Fin (a / b).
Proof.
  intros Hb. simpl. apply Reqb_false in Hb. now rewrite Hb.
Qed.

(** C9. In exact arithmetic, for every finite [x] and every Normal with
    a finite mean and a positive scale, [Survival(x) + CDF(x)] equals 1,
    where [Survival] is computed on its own as
    [0.5 * (1 - erf((x - mean)/(scale*sqrt2)))], not as [1 - CDF(x)]. *)
Theorem Survival_plus_CDF (m s x : R) :
  (0 < s)%R ->
  let n := {| Mu := Fin m; Sigma := Fin s |} in
  Survival n (Fin x) + CDF n (Fin x) = 1
  /\ Survival n (Fin x)
     = 0.5 * (1 - math_Erf ((Fin x - Mu n) / (Sigma n * f_lit math_Sqrt2))).
Proof.
  intros Hs n. split; [| reflexivity].
  unfold Survival, CDF, n. cbn [Mu Sigma].
  assert (Hc : (s * lit_to_R math_Sqrt2 <> 0)%R).
  { pose proof (lit_to_R_pos math_Sqrt2 eq_refl). nra. }
  change (Fin x - Fin m) with (Fin (x + - m)).
  change (Fin s * f_lit math_Sqrt2) with (Fin (s * lit_to_R math_Sqrt2)).
  rewrite (exact_div_Fin _ Hc).
  change (math_Erf (Fin ?t)) with (Fin (erf t)).
  match goal with |- context [erf ?t] => set (e := erf t) end.
  change (Fin (lit_to_R 0.5 * (lit_to_R 1 + - e)
               + lit_to_R 0.5 * (lit_to_R 1 + e)) = Fin (lit_to_R 1)).
  f_equal. rewrite lit_one, lit_half. lra.
Qed.

Lemma lit_two : lit_to_R 2 = 2%R.
Proof. reflexivity. Qed.

Lemma lit_five : lit_to_R 5 = 5%R.
Proof. reflexivity. Qed.

Lemma exact_log_Fin (a : R) : (0 < a)%R -> math_Log (Fin a) = Fin (ln a).
Proof.
  intros Ha. simpl.
  assert (H1 : Rltb a 0 = false) by (apply Rltb_false; lra).
  assert (H2 : Reqb a 0 = false) by (apply Reqb_false; lra).
  now rewrite H1, H2.
Qed.

Lemma exact_sqrt_Fin (a : R) : (0 <= a)%R -> math_Sqrt (Fin a) = Fin (sqrt a).
Proof.
  intros Ha. simpl.
  assert (H1 : Rltb a 0 = false) by (apply Rltb_false; lra).
  now rewrite H1.
Qed.

Lemma exact_leb_Fin (a b : R) :
  (Fin a <=? Fin b) = negb (Fin b <? Fin a).
Proof.
  simpl. unfold xleb, xltb, xeqb, Rltb, Reqb.
  destruct (Rlt_dec a b), (Req_dec_T a b), (Rlt_dec b a); simpl;
    try reflexivity; exfalso; lra.
Qed.

(** In the tails of the open interval the radius [r = sqrt(-ln pp)] is a
    finite number, so that "else" after [r <= 5.0] is [r > 5.0]. *)
Lemma exact_tail_radius (p : R) :
  (0 < p < 1)%R ->
  let pp := if Fin p <? 0.5 then Fin p else 1 - Fin p in
  exists rho : R,
    math_Sqrt (- math_Log pp) = Fin rho
    /\ (Fin rho <=? 5) = negb (5 <? Fin rho).
Proof.
  intros Hp pp.
  assert (Hpp : exists q, pp = Fin q /\ (0 < q < 1)%R).
  { unfold pp. destruct (Fin p <? 0.5).
    - now exists p.
    - exists (1 - p)%R. split; [| lra].
      change (1 - Fin p) with (Fin (lit_to_R 1 + - p)).
      rewrite lit_one. f_equal. }
  destruct Hpp as [q [-> Hq]].
  exists (sqrt (- ln q)).
  assert (Hln : (ln q < 0)%R) by (rewrite <- ln_1; apply ln_increasing; lra).
  rewrite exact_log_Fin by lra.
  change (- Fin (ln q)) with (Fin (- ln q)).
  rewrite exact_sqrt_Fin by lra.
  split; [reflexivity |].
  change (5 : xreal) with (Fin (lit_to_R 5)). apply exact_leb_Fin.
Qed.

(** The log-density of the code is the real log-density. *)
Lemma LogProb_exact (m s x : R) :
  (0 < s)%R ->
  LogProb {| Mu := Fin m; Sigma := Fin s |} (Fin x) = Fin (LogProb_real m s x).
Proof.
  intros Hs. unfold LogProb, LogProb_real. cbn [Mu Sigma].
  rewrite exact_log_Fin by assumption.
  change (Fin x - Fin m) with (Fin (x + - m)).
  change (2 * Fin s * Fin s) with (Fin (lit_to_R 2 * s * s)).
  change (Fin ?a * Fin ?b) with (Fin (a * b)).
  rewrite lit_two.
  rewrite exact_div_Fin by nra.
  change (Fin (lit_to_R negLogRoot2Pi + - ln s
               + - ((x + - m) * (x + - m) / (2 * s * s)))
          = Fin (lit_to_R negLogRoot2Pi - ln s
                 - (x - m) * (x - m) / (2 * s * s))).
  reflexivity.
Qed.

(** The two formulas of the claim are the derivatives of the log-density
    ([dLogProb_dMu], [dLogProb_dSigma]) ... *)
Lemma dLogProb_dParam_exact (m s x : R) :
  (0 < s)%R ->
  dLogProb_dParam {| Mu := Fin m; Sigma := Fin s |} (Fin x)
  = [ Fin ((x - m) / (s * s));
      Fin (- (1 / s) + (x - m) * (x - m) / (s * s * s)) ].
Proof.
  intros Hs. unfold dLogProb_dParam. cbn [Mu Sigma].
  change (Fin x - Fin m) with (Fin (x + - m)).
  change (1 : xreal) with (Fin (lit_to_R 1)). rewrite lit_one.
  repeat change (Fin ?a * Fin ?b) with (Fin (a * b)).
  assert (H1 : s <> 0%R) by lra.
  assert (H2 : (s * s)%R <> 0%R) by now apply Rmult_integral_contrapositive.
  assert (H3 : (s * s * s)%R <> 0%R) by now apply Rmult_integral_contrapositive.
  rewrite (exact_div_Fin _ H1), (exact_div_Fin _ H2), (exact_div_Fin _ H3).
  reflexivity.
Qed.

(** ... and what the code writes is something else: at a finite point it is
    [[mean * (x - mean)/scale^2, (1/scale) * (-1 + (x - mean)^2/2)]]. *)
Lemma DLogProbDParam_exact (m s x : R) (d0 d1 : xreal) :
  (0 < s)%R ->
  DLogProbDParam {| Mu := Fin m; Sigma := Fin s |} (Fin x) [d0; d1]
  = Ok [ Fin (m * (x - m) / (s * s));
         Fin (1 / s * (-1 + (x - m) * (x - m) / 2)) ].
Proof.
  intros Hs. rewrite DLogProbDParam_writes. cbn [Mu Sigma].
  change (Fin x - Fin m) with (Fin (x + - m)).
  change (1 : xreal) with (Fin (lit_to_R 1)).
  change (-1 : xreal) with (Fin (lit_to_R (-1))).
  change (2 : xreal) with (Fin (lit_to_R 2)).
  rewrite lit_one, lit_two.
  repeat change (Fin ?a * Fin ?b) with (Fin (a * b)).
  assert (H1 : s <> 0%R) by lra.
  assert (H2 : (s * s)%R <> 0%R) by now apply Rmult_integral_contrapositive.
  assert (H3 : 2%R <> 0%R) by lra.
  rewrite (exact_div_Fin _ H1), (exact_div_Fin _ H2), (exact_div_Fin _ H3).
  reflexivity.
Qed.

Lemma power_sum_shift (x : R) (cs : list R) (k : nat) :
  power_sum x cs (S k) = (x * power_sum x cs k)%R.
Proof.
  revert k. induction cs as [| c cs IH]; intros k; simpl.
  - ring.
  - rewrite (IH (S k)). simpl. ring.
Qed.

(** In exact arithmetic the Horner form is the polynomial: [rateval] of
    finite coefficients at a finite point is the quotient of the two sums
    of powers. *)
Lemma horner_power_sum (x : R) (cs : list R) :
  horner (Fin x) (map Fin cs) = Fin (power_sum x cs 0).
Proof.
  induction cs as [| c cs IH].
  - reflexivity.
  - destruct cs as [| d cs].
    + simpl. f_equal. ring.
    + change (horner (Fin x) (map Fin (c :: d :: cs)))
        with (Fin x * horner (Fin x) (map Fin (d :: cs)) + Fin c).
      rewrite IH.
      change (Fin (x * power_sum x (d :: cs) 0 + c)
              = Fin (power_sum x (c :: d :: cs) 0)).
      f_equal.
      change (power_sum x (c :: d :: cs) 0)
        with (c * x ^ 0 + power_sum x (d :: cs) 1)%R.
      rewrite power_sum_shift. simpl. ring.
Qed.

Lemma Survival_plus_CDF_witness :
  let n := {| Mu := Fin 0; Sigma := Fin 1 |} in
  Survival n (Fin 3) + CDF n (Fin 3) = 1.
Proof.
  exact (proj1 (@Survival_plus_CDF 0 1 3 Rlt_0_1)).
Defined.

Lemma zQuantile_three_regions_witness :
  ((0 : xreal) <? 0.975) = true /\ ((0.975 : xreal) <? 1) = true
  /\ zQuantile (F := xreal) 0.975 = Ok (zQuantile_regions 0.975).
Proof.
  assert (Hlo : ((0 : xreal) <? 0.975) = true).
  { apply Rltb_true. unfold lit_to_R. simpl. lra. }
  assert (Hhi : ((0.975 : xreal) <? 1) = true).
  { apply Rltb_true. unfold lit_to_R. simpl. lra. }
  split; [exact Hlo |]. split; [exact Hhi |].
  exact (@zQuantile_three_regions xreal _ _ exact_laws 0.975 Hlo Hhi).
Defined.

End ExactDistribution.

(* ================================================================== *)
(** * Fitting in exact arithmetic *)

Section ExactFitting.
Import Exact.
Local Open Scope f64_scope.

(** Sums of finite numbers are the real sums. *)
Lemma fold_add_Fin (l : list R) (a : R) :
  fold_left f_add (map Fin l) (Fin a) = Fin (fold_left Rplus l a).
Proof.
  revert a. induction l as [| r l IH]; intros a; [reflexivity |].
  simpl. apply IH.
Qed.

Lemma floats_Sum_Fin (l : list R) :
  floats_Sum (map Fin l) = Fin (fold_left Rplus l 0%R).
Proof. apply fold_add_Fin. Qed.

Lemma weighted_terms_Fin (h : xreal * xreal -> xreal) (h' : R * R -> R)
      (ws xs : list R) :
  (forall w v, h (Fin w, Fin v) = Fin (h' (w, v))) ->
  map h (combine (map Fin ws) (map Fin xs))
  = map Fin (map h' (combine ws xs)).
Proof.
  intros Hh. revert xs.
  induction ws as [| w ws IH]; intros [| x xs]; try reflexivity.
  simpl. rewrite Hh. f_equal. apply IH.
Qed.

Lemma len_map {A B} (f : A -> B) (l : list A) : len (map f l) = len l.
Proof. unfold len. now rewrite length_map. Qed.

Lemma sum_of_weights_Fin (xs ws : list R) :
  sum_of_weights (map Fin xs) (map Fin ws) = Fin (real_weight_sum xs ws).
Proof.
  unfold sum_of_weights, real_weight_sum. rewrite !len_map.
  destruct ws as [| w ws]; [reflexivity |].
  replace (len (w :: ws) =? 0)%Z with false
    by (symmetry; apply Z.eqb_neq; unfold len; simpl; lia).
  apply floats_Sum_Fin.
Qed.

Lemma stat_Mean_Fin (xs ws : list R) :
  real_weight_sum xs ws <> 0%R ->
  stat_Mean (map Fin xs) (map Fin ws) = Fin (real_mean xs ws).
Proof.
  unfold real_weight_sum, real_mean, stat_Mean. intros Hsum.
  destruct ws as [| w ws].
  - simpl map. rewrite floats_Sum_Fin, len_map.
    now apply exact_div_Fin.
  - change (map Fin (w :: ws)) with (Fin w :: map Fin ws) at 1.
    cbv iota beta.
    change (Fin w :: map Fin ws) with (map Fin (w :: ws)).
    rewrite floats_Sum_Fin.
    rewrite (weighted_terms_Fin _ (fun '(w, v) => (w * v)%R))
      by reflexivity.
    change (f_lit 0) with (Fin 0). rewrite fold_add_Fin.
    now apply exact_div_Fin.
Qed.

Lemma stat_Moment_Fin (xs ws : list R) (mean : R) :
  real_weight_sum xs ws <> 0%R ->
  stat_Moment 2 (map Fin xs) (Fin mean) (map Fin ws)
  = Fin (real_moment2 xs mean ws).
Proof.
  unfold real_weight_sum, real_moment2, stat_Moment. intros Hsum.
  assert (Hpow : forall v, f_pow (Fin v - Fin mean) 2
                           = Fin ((v - mean) * (v - mean))).
  { intros v. simpl. f_equal. rewrite lit_one. unfold Rminus. ring. }
  destruct ws as [| w ws].
  - simpl map at 2. cbv iota beta.
    rewrite map_map.
    rewrite (map_ext _ (fun v => Fin ((v - mean) * (v - mean))) Hpow).
    rewrite <- (map_map (fun v => ((v - mean) * (v - mean))%R) Fin).
    change (f_lit 0) with (Fin 0). rewrite fold_add_Fin, len_map.
    now apply exact_div_Fin.
  - change (map Fin (w :: ws)) with (Fin w :: map Fin ws) at 1.
    cbv iota beta.
    change (Fin w :: map Fin ws) with (map Fin (w :: ws)).
    rewrite floats_Sum_Fin.
    rewrite (weighted_terms_Fin _
               (fun '(w, v) => (w * ((v - mean) * (v - mean)))%R))
      by (intros w0 v0; rewrite Hpow; reflexivity).
    change (f_lit 0) with (Fin 0). rewrite fold_add_Fin.
    now apply exact_div_Fin.
Qed.

(** Without a prior, the fit is the statistics of the samples. *)
Lemma Fit_sample_statistics (xs ws : list R) (n : @Normal xreal) :
  let samples := map Fin xs in
  let weights := map Fin ws in
  weights_match samples weights = true ->
  sum_of_weights samples weights <> 0 ->
  Fit samples weights n
  = ({| Mu := stat_Mean samples weights;
        Sigma := math_Sqrt
                   (stat_Moment 2 samples (stat_Mean samples weights)
                      weights) |},
     Ok tt).
Proof.
  intros samples weights Hw Hsum. unfold Fit, samples, weights in *.
  rewrite sum_of_weights_Fin in Hsum.
  assert (Hs : real_weight_sum xs ws <> 0%R).
  { intros H0. apply Hsum. now rewrite H0. }
  cbn [bind exec_monad].
  rewrite (FitPrior_no_prior _ _ n Hw). cbv zeta.
  rewrite sum_of_weights_Fin, (@stat_Mean_Fin xs ws Hs),
    (@stat_Moment_Fin xs ws _ Hs).
  change (Fin ?a * Fin ?b) with (Fin (a * b)).
  rewrite !(exact_div_Fin _ Hs).
  cbn [ret exec_monad]. do 3 f_equal; f_equal; field; assumption.
Qed.

(** C5. In exact arithmetic, [Fit] with no prior sets the mean to the
    weighted sample mean and the scale to the square root of the
    uncorrected weighted second central moment (finite samples and
    weights, the weights absent or one per sample, their sum not zero);
    in particular the unweighted samples [[1, 2, 3]] give mean [2] and
    scale [sqrt(2/3)]. *)
Theorem Fit_no_prior (n : @Normal xreal) :
  (forall xs ws : list R,
      let samples := map Fin xs in
      let weights := map Fin ws in
      weights_match samples weights = true ->
      sum_of_weights samples weights <> 0 ->
      Fit samples weights n
      = ({| Mu := stat_Mean samples weights;
            Sigma := math_Sqrt
                       (stat_Moment 2 samples (stat_Mean samples weights)
                          weights) |},
         Ok tt))
  /\ Fit [1; 2; 3] [] n = ({| Mu := 2; Sigma := math_Sqrt (2 / 3) |}, Ok tt).
Proof.
  split; [intros xs ws; apply Fit_sample_statistics |].
  assert (Hs : real_weight_sum [1; 2; 3]%R [] <> 0%R)
    by (unfold real_weight_sum, len; simpl; lra).
  change (Fit [1; 2; 3] [] n)
    with (Fit (map Fin [1; 2; 3]%R) (map Fin (@nil R)) n).
  rewrite Fit_sample_statistics;
    [| reflexivity
     | rewrite sum_of_weights_Fin; intros H; injection H as H; now apply Hs].
  rewrite (@stat_Mean_Fin _ _ Hs), (@stat_Moment_Fin _ _ _ Hs).
  assert (H3 : lit_to_R 3 <> 0%R) by (unfold lit_to_R; simpl; lra).
  change (@f_lit xreal _ ?l) with (Fin (lit_to_R l)).
  rewrite (exact_div_Fin _ H3).
  assert (Hmean : real_mean [1; 2; 3]%R [] = lit_to_R 2)
    by (unfold real_mean, lit_to_R, len; simpl; lra).
  rewrite Hmean.
  assert (Hvar : real_moment2 [1; 2; 3]%R (lit_to_R 2) []
                 = (lit_to_R 2 / lit_to_R 3)%R)
    by (unfold real_moment2, lit_to_R, len; simpl; lra).
  now rewrite Hvar.
Qed.

Lemma Fit_no_prior_witness :
  Fit (map Fin [1; 3]%R) (map Fin [1; 3]%R) {| Mu := 0; Sigma := 1 |}
  = ({| Mu := stat_Mean (map Fin [1; 3]%R) (map Fin [1; 3]%R);
        Sigma := math_Sqrt
                   (stat_Moment 2 (map Fin [1; 3]%R)
                      (stat_Mean (map Fin [1; 3]%R) (map Fin [1; 3]%R))
                      (map Fin [1; 3]%R)) |},
     Ok tt).
Proof.
  apply (proj1 (Fit_no_prior {| Mu := 0; Sigma := 1 |}) [1; 3]%R [1; 3]%R).
  - reflexivity.
  - rewrite sum_of_weights_Fin. intros H. injection H as H.
    unfold real_weight_sum, lit_to_R in H. simpl in H. lra.
Defined.

End ExactFitting.

Section Binary64Fitting.
Import Binary64.
Local Open Scope f64_scope.

(** The same three samples on binary64: the mean is [2] and the scale is
    the square root of the quotient [2/3], bit for bit. *)
Lemma Fit_1_2_3_binary64 (n : @Normal float) :
  Fit [1; 2; 3] [] n = ({| Mu := 2; Sigma := math_Sqrt (2 / 3) |}, Ok tt).
Proof. reflexivity. Qed.

End Binary64Fitting.


(* ================================================================== *)
(** * Marshaling the parameters *)

Section Marshaling.
Context {F : Type} {ops : Float64 F}.
Local Open Scope f64_scope.

Implicit Types n : @Normal F.

Lemma MarshalSlice_writes n (a b : F) :
  MarshalSlice n [a; b] = Ok [Mu n; Sigma n].
Proof. reflexivity. Qed.

Lemma UnmarshalSlice_reads (a b : F) n :
  UnmarshalSlice [a; b] n = ({| Mu := a; Sigma := b |}, Ok tt).
Proof. reflexivity. Qed.

Lemma MarshalSlice_length n (s : list F) :
  len s <> 2%Z ->
  MarshalSlice n s = Panic "exponential: improper parameter length".
Proof.
  intros Hlen. unfold MarshalSlice, NumParameters.
  apply Z.eqb_neq in Hlen. now rewrite Hlen.
Qed.

Lemma UnmarshalSlice_length (s : list F) n :
  len s <> 2%Z ->
  UnmarshalSlice s n
  = (n, Panic "exponential: incorrect number of parameters to set").
Proof.
  intros Hlen. unfold UnmarshalSlice, NumParameters.
  apply Z.eqb_neq in Hlen. cbn [bind exec_monad get_Normal].
  now rewrite Hlen.
Qed.

(** X1. [MarshalSlice] then [UnmarshalSlice]: the parameters written into
    a slice of length 2 and read back into any other distribution make it
    the distribution they came from. *)
Theorem Marshal_then_Unmarshal n n0 (s : list F) :
  len s = 2%Z ->
  exists s', MarshalSlice n s = Ok s' /\ UnmarshalSlice s' n0 = (n, Ok tt).
Proof.
  intros Hlen. destruct (len_2 _ Hlen) as [a [b ->]].
  exists [Mu n; Sigma n]. split.
  - apply MarshalSlice_writes.
  - rewrite UnmarshalSlice_reads. now destruct n.
Qed.

(** X2. [UnmarshalSlice] then [MarshalSlice]: a slice of length 2 read into
    a distribution and written out again into any buffer of length 2 comes
    back element for element, whatever the buffer and the distribution
    held. *)
Theorem Unmarshal_then_Marshal (s buf : list F) n0 :
  len s = 2%Z -> len buf = 2%Z ->
  exists n, UnmarshalSlice s n0 = (n, Ok tt) /\ MarshalSlice n buf = Ok s.
Proof.
  intros Hs Hbuf.
  destruct (len_2 _ Hs) as [a [b ->]].
  destruct (len_2 _ Hbuf) as [c [d ->]].
  exists {| Mu := a; Sigma := b |}. split.
  - apply UnmarshalSlice_reads.
  - apply MarshalSlice_writes.
Qed.

(** X3. Both directions refuse every slice whose length is not 2, and only
    those; [UnmarshalSlice] then leaves the receiver as it was. *)
Theorem Marshal_length_faults n (s : list F) :
  is_panic (MarshalSlice n s) = negb (len s =? 2)%Z
  /\ is_panic (snd (UnmarshalSlice s n)) = negb (len s =? 2)%Z
  /\ (is_panic (snd (UnmarshalSlice s n)) = true ->
      fst (UnmarshalSlice s n) = n).
Proof.
  destruct (Z.eqb_spec (len s) 2) as [Heq | Hne].
  - destruct (len_2 _ Heq) as [a [b ->]].
    rewrite MarshalSlice_writes, UnmarshalSlice_reads.
    repeat split. discriminate.
  - rewrite MarshalSlice_length, UnmarshalSlice_length by assumption.
    repeat split.
Qed.

(** X4. The parameter map names the slots of the marshaled slice: after
    [MarshalSlice], the slot of ["Mu"] holds [Mean()] and the slot of
    ["Sigma"] holds [StdDev()]. *)
Theorem ParameterMap_slots n (s : list F) :
  len s = 2%Z ->
  exists s',
    MarshalSlice n s = Ok s'
    /\ index s' (map_get (ParameterMap n) "Mu") = Ok (Mean n)
    /\ index s' (map_get (ParameterMap n) "Sigma") = Ok (StdDev n).
Proof.
  intros Hlen. destruct (len_2 _ Hlen) as [a [b ->]].
  exists [Mu n; Sigma n]. repeat split.
Qed.

End Marshaling.

(* ================================================================== *)
(** * [rateval] on any length arguments *)

Section RatevalLengths.
Context {F : Type} {ops : Float64 F}.
Local Open Scope f64_scope.

Lemma index_firstn {A} (s : list A) (k : nat) (i : Z) :
  (i < Z.of_nat k)%Z ->
  index (M := result) (firstn k s) i = index s i.
Proof.
  intros Hi. unfold index.
  destruct (Z.ltb_spec i 0) as [_ | Hpos]; [reflexivity |].
  rewrite nth_error_firstn.
  destruct (Nat.ltb_spec (Z.to_nat i) k) as [_ | Hge]; [reflexivity | lia].
Qed.

(** The loop with counter [i] reads [a[0..i-1]] only. *)
Lemma rateval_loop_firstn (a : list F) (x : F) (k i : nat) (u : F) :
  (i <= k)%nat ->
  rateval_loop (firstn k a) x i u = rateval_loop a x i u.
Proof.
  revert u. induction i as [| i IH]; intros u Hi; [reflexivity |].
  rewrite !rateval_loop_S, index_firstn by lia.
  destruct (index a (Z.of_nat i)) as [c |]; [| reflexivity].
  simpl bind. apply IH. lia.
Qed.

Lemma len_firstn {A} (s : list A) (k : Z) :
  (0 <= k <= len s)%Z -> len (firstn (Z.to_nat k) s) = k.
Proof.
  unfold len. intros Hk. rewrite length_firstn. lia.
Qed.

(** One half of [rateval] with a length argument inside the slice. *)
Lemma rateval_half_prefix (a : list F) (na : Z) (x : F) :
  (1 <= na <= len a)%Z -> (len a < 2 ^ 63)%Z ->
  (u <- index a (int64_sub na 1) ;;
   rateval_loop a x (Z.to_nat (int64_sub na 1)) u)
  = Ok (horner x (firstn (Z.to_nat na) a)).
Proof.
  intros Hna Hlen.
  set (a' := firstn (Z.to_nat na) a).
  assert (Hlen' : len a' = na) by (apply len_firstn; lia).
  assert (Ha' : a' <> []).
  { intros H0. rewrite H0 in Hlen'. unfold len in Hlen'. simpl in Hlen'. lia. }
  rewrite <- (rateval_half x Ha') by lia.
  rewrite Hlen'.
  assert (Hsub : int64_sub na 1 = (na - 1)%Z)
    by (unfold int64_sub; apply wrap64_small; lia).
  rewrite Hsub. unfold a'.
  rewrite index_firstn by lia.
  destruct (index a (na - 1)) as [u |]; [| reflexivity].
  simpl bind. symmetry. apply rateval_loop_firstn. lia.
Qed.

(** One half of [rateval] with a length argument outside the slice. *)
Lemma rateval_half_out_of_range (a : list F) (na : Z) :
  (- 2 ^ 63 <= na < 2 ^ 63)%Z -> (len a < 2 ^ 63)%Z ->
  ~ (1 <= na <= len a)%Z ->
  index (M := result) a (int64_sub na 1) = Panic index_out_of_range.
Proof.
  intros Hrange Hlen Hout. unfold index, int64_sub.
  destruct (Z.eq_dec na (- 2 ^ 63)) as [-> | Hmin].
  - (* the subtraction wraps around to the largest int64 *)
    replace (wrap64 (- 2 ^ 63 - 1)) with (2 ^ 63 - 1)%Z by reflexivity.
    destruct (Z.ltb_spec (2 ^ 63 - 1) 0) as [Hneg | _]; [lia |].
    destruct (nth_error a (Z.to_nat (2 ^ 63 - 1))) eqn:Hnth; [| reflexivity].
    assert (Hlt : (Z.to_nat (2 ^ 63 - 1) < List.length a)%nat)
      by (apply nth_error_Some; congruence).
    unfold len in Hlen. lia.
  - rewrite wrap64_small by lia.
    destruct (Z.ltb_spec (na - 1) 0) as [_ | Hpos]; [reflexivity |].
    destruct (nth_error a (Z.to_nat (na - 1))) eqn:Hnth; [| reflexivity].
    assert (Hlt : (Z.to_nat (na - 1) < List.length a)%nat)
      by (apply nth_error_Some; congruence).
    unfold len in Hout. lia.
Qed.

(** X5. With length arguments inside the slices, [1 <= na <= len(a)] and
    [1 <= nb <= len(b)], [rateval] uses the first [na] and [nb] coefficients
    alone: it returns the quotient of the Horner forms of [a[:na]] and
    [b[:nb]]. *)
Theorem rateval_prefix (a b : list F) (na nb : Z) (x : F) :
  (1 <= na <= len a)%Z -> (1 <= nb <= len b)%Z ->
  (len a < 2 ^ 63)%Z -> (len b < 2 ^ 63)%Z ->
  rateval a na b nb x
  = Ok (horner x (firstn (Z.to_nat na) a)
        / horner x (firstn (Z.to_nat nb) b)).
Proof.
  intros Hna Hnb Hla Hlb. unfold rateval.
  pose proof (@rateval_half_prefix a na x Hna Hla) as Hu.
  pose proof (@rateval_half_prefix b nb x Hnb Hlb) as Hv.
  simpl bind in *.
  destruct (index a (int64_sub na 1)) as [u0 |]; [| discriminate].
  rewrite Hu.
  destruct (index b (int64_sub nb 1)) as [v0 |]; [| discriminate].
  now rewrite Hv.
Qed.

(** X6. [rateval] has no check of its own: for [int64] length arguments it
    panics (index out of range) exactly when [na] is outside
    [[1, len(a)]] or [nb] outside [[1, len(b)]] -- a zero or negative
    length is a panic, not an empty polynomial. *)
Theorem rateval_panics (a b : list F) (na nb : Z) (x : F) :
  (- 2 ^ 63 <= na < 2 ^ 63)%Z -> (- 2 ^ 63 <= nb < 2 ^ 63)%Z ->
  (len a < 2 ^ 63)%Z -> (len b < 2 ^ 63)%Z ->
  is_panic (rateval a na b nb x)
  = negb ((1 <=? na)%Z && (na <=? len a)%Z
          && ((1 <=? nb)%Z && (nb <=? len b)%Z)).
Proof.
  intros Hra Hrb Hla Hlb.
  destruct ((1 <=? na)%Z && (na <=? len a)%Z) eqn:Ha.
  - apply andb_prop in Ha as [Ha1 Ha2].
    apply Z.leb_le in Ha1, Ha2.
    pose proof (@rateval_half_prefix a na x (conj Ha1 Ha2) Hla) as Hu.
    destruct ((1 <=? nb)%Z && (nb <=? len b)%Z) eqn:Hb.
    + apply andb_prop in Hb as [Hb1 Hb2].
      apply Z.leb_le in Hb1, Hb2.
      pose proof (@rateval_half_prefix b nb x (conj Hb1 Hb2) Hlb) as Hv.
      unfold rateval. simpl bind in *.
      destruct (index a (int64_sub na 1)) as [u0 |]; [| discriminate].
      rewrite Hu.
      destruct (index b (int64_sub nb 1)) as [v0 |]; [| discriminate].
      now rewrite Hv.
    + assert (Hout : ~ (1 <= nb <= len b)%Z).
      { intros [H1 H2]. apply Z.leb_le in H1, H2.
        now rewrite H1, H2 in Hb. }
      unfold rateval. simpl bind in *.
      destruct (index a (int64_sub na 1)) as [u0 |]; [| discriminate].
      rewrite Hu.
      now rewrite (@rateval_half_out_of_range b nb Hrb Hlb Hout).
  - assert (Hout : ~ (1 <= na <= len a)%Z).
    { intros [H1 H2]. apply Z.leb_le in H1, H2.
      now rewrite H1, H2 in Ha. }
    unfold rateval.
    now rewrite (@rateval_half_out_of_range a na Hra Hla Hout).
Qed.

End RatevalLengths.

(* ================================================================== *)
(** * Fitting: what a successful call leaves *)

Section FittingResults.
Context {F : Type} {ops : Float64 F}.
Local Open Scope f64_scope.

Implicit Types samples weights priorValue priorWeight : list F.
Implicit Type n : @Normal F.

(** The shape of a run with a prior of length 2. *)
Lemma FitPrior_full_prior_shape samples weights (pv0 pv1 pw0 pw1 : F) n :
  weights_match samples weights = true ->
  exists mu sigma w0 w1 : F,
    forall n',
      FitPrior samples weights [pv0; pv1] [pw0; pw1] n'
      = ({| Mu := mu; Sigma := sigma |}, Ok ([mu; sigma], [w0; w1])).
Proof.
  intros Hw. do 4 eexists. intros n'.
  unfold FitPrior. rewrite weights_check, Hw.
  cbv [bind ret panic exec_monad result_monad panic_if index store update
       nth_error len List.length Z.of_nat Z.to_nat Z.ltb Z.leb Z.eqb Z.gtb
       Z.compare Pos.compare Pos.compare_cont Pos.of_succ_nat Pos.succ
       orb andb negb get_Mu get_Sigma set_Mu set_Sigma Mu Sigma
       index_out_of_range].
  reflexivity.
Qed.

(** A call that returns had matching weights and no prior or a prior of
    length 2. *)
Lemma FitPrior_success_cases samples weights priorValue priorWeight n :
  is_panic (snd (FitPrior samples weights priorValue priorWeight n)) = false ->
  weights_match samples weights = true
  /\ ((priorValue = [] /\ priorWeight = [])
      \/ exists pv0 pv1 pw0 pw1,
           priorValue = [pv0; pv1] /\ priorWeight = [pw0; pw1]).
Proof.
  rewrite FitPrior_panics. unfold listed_fault. rewrite weights_check.
  pose proof (len_nonneg priorValue) as Hv0.
  pose proof (len_nonneg priorWeight) as Hw0.
  intros H.
  apply orb_false_iff in H as [H H1].
  apply orb_false_iff in H as [H _].
  apply orb_false_iff in H as [H Hle].
  apply orb_false_iff in H as [Hwm Heq].
  apply orb_false_iff in Hle as [Hle _].
  destruct (weights_match samples weights); [| discriminate].
  split; [reflexivity |].
  apply negb_false_iff, Z.eqb_eq in Heq.
  apply Z.ltb_ge in Hle.
  assert (Hcases : len priorValue = 0%Z \/ len priorValue = 1%Z
                   \/ len priorValue = 2%Z) by lia.
  destruct Hcases as [H0 | [Hone | H2]].
  - left. split; apply len_0; lia.
  - rewrite <- Heq, Hone in H1. discriminate.
  - right. destruct (len_2 _ H2) as [a [a' ->]].
    destruct (len_2 priorWeight) as [b [b' ->]]; [lia |].
    now exists a, a', b, b'.
Qed.

(** X7. What a successful [FitPrior] returns can be given back as the
    prior of a next call: the returned value is [[n.Mu, n.Sigma]] of the
    fitted receiver, value and weight have length 2, and a call with them
    as prior (and weights that match its samples) does not panic. *)
Theorem FitPrior_result_is_a_prior
        samples weights priorValue priorWeight n n' (pv' pw' : list F) :
  FitPrior samples weights priorValue priorWeight n = (n', Ok (pv', pw')) ->
  pv' = [Mu n'; Sigma n']
  /\ len pw' = 2%Z
  /\ forall samples2 weights2 m,
       weights_match samples2 weights2 = true ->
       is_panic (snd (FitPrior samples2 weights2 pv' pw' m)) = false.
Proof.
  intros Hrun.
  assert (Hok : is_panic (snd (FitPrior samples weights priorValue
                                 priorWeight n)) = false)
    by now rewrite Hrun.
  destruct (FitPrior_success_cases _ _ _ _ _ Hok)
    as [Hw [[-> ->] | [pv0 [pv1 [pw0 [pw1 [-> ->]]]]]]].
  - rewrite (FitPrior_no_prior _ _ n Hw) in Hrun. cbv zeta in Hrun.
    injection Hrun as <- <- <-.
    repeat split. intros samples2 weights2 m Hw2.
    rewrite FitPrior_panics. unfold listed_fault.
    rewrite weights_check, Hw2. reflexivity.
  - destruct (FitPrior_full_prior_shape samples weights pv0 pv1 pw0 pw1 n Hw)
      as [mu [sigma [w0 [w1 Hshape]]]].
    rewrite Hshape in Hrun. injection Hrun as <- <- <-.
    repeat split. intros samples2 weights2 m Hw2.
    rewrite FitPrior_panics. unfold listed_fault.
    rewrite weights_check, Hw2. reflexivity.
Qed.

(** X8. A call that returns has replaced both parameters: nothing of the
    receiver's former mean and scale is left in the result, so that the
    same call on any other receiver ends the same. *)
Theorem FitPrior_replaces_parameters
        samples weights priorValue priorWeight n1 n2 :
  is_panic (snd (FitPrior samples weights priorValue priorWeight n1)) = false ->
  FitPrior samples weights priorValue priorWeight n1
  = FitPrior samples weights priorValue priorWeight n2
  /\ Fit samples weights n1 = Fit samples weights n2.
Proof.
  intros Hok.
  destruct (FitPrior_success_cases _ _ _ _ _ Hok)
    as [Hw [[-> ->] | [pv0 [pv1 [pw0 [pw1 [-> ->]]]]]]].
  - unfold Fit. cbn [bind exec_monad].
    rewrite (FitPrior_no_prior _ _ n1 Hw), (FitPrior_no_prior _ _ n2 Hw).
    split; reflexivity.
  - destruct (FitPrior_full_prior_shape samples weights pv0 pv1 pw0 pw1 n1 Hw)
      as [mu [sigma [w0 [w1 Hshape]]]].
    split; [now rewrite !Hshape |].
    unfold Fit. cbn [bind exec_monad].
    now rewrite (FitPrior_no_prior _ _ n1 Hw), (FitPrior_no_prior _ _ n2 Hw).
Qed.

End FittingResults.

(* ================================================================== *)
(** * The quantile in exact arithmetic *)

Section ExactQuantile.
Import Exact.
Local Open Scope f64_scope.

Lemma xneg_involutive (a : xreal) : - - a = a.
Proof. destruct a; simpl; try reflexivity. now rewrite Ropp_involutive. Qed.

Lemma exact_mul_neg_l (d : R) (y : xreal) : Fin (- d) * y = - (Fin d * y).
Proof.
  destruct y as [r | | |]; simpl; try reflexivity.
  - f_equal. ring.
  - unfold inf_times, Rltb.
    destruct (Rlt_dec 0 (- d)), (Rlt_dec (- d) 0), (Rlt_dec 0 d),
      (Rlt_dec d 0); simpl; try reflexivity; exfalso; lra.
  - unfold inf_times, Rltb.
    destruct (Rlt_dec 0 (- d)), (Rlt_dec (- d) 0), (Rlt_dec 0 d),
      (Rlt_dec d 0); simpl; try reflexivity; exfalso; lra.
Qed.

Lemma exact_eqb_Fin (a b : R) : (Fin a =? Fin b) = Reqb a b.
Proof. reflexivity. Qed.

Lemma exact_ltb_Fin (a b : R) : (Fin a <? Fin b) = Rltb a b.
Proof. reflexivity. Qed.

Lemma lit_0425 : lit_to_R 0.425 = (425 / 1000)%R.
Proof. unfold lit_to_R. simpl. lra. Qed.

(** The value computed between the boundary cases, at [p] and at
    [1 - p]. *)
Lemma zQuantile_regions_reflect (p : R) :
  zQuantile_regions (Fin (1 - p)) = - zQuantile_regions (Fin p).
Proof.
  unfold zQuantile_regions.
  change (Fin (1 - p) - 0.5) with (Fin (1 - p + - lit_to_R 0.5)).
  change (Fin p - 0.5) with (Fin (p + - lit_to_R 0.5)).
  rewrite lit_half.
  set (d := (p + - (1 / 2))%R).
  replace (1 - p + - (1 / 2))%R with (- d)%R by (unfold d; lra).
  cbv zeta.
  change (math_Abs (Fin (- d))) with (Fin (Rabs (- d))).
  change (math_Abs (Fin d)) with (Fin (Rabs d)).
  rewrite Rabs_Ropp.
  destruct (Fin (Rabs d) <=? 0.425) eqn:Hcentral.
  - (* the central region *)
    change (Fin (- d) * Fin (- d)) with (Fin (- d * - d)).
    change (Fin d * Fin d) with (Fin (d * d)).
    replace (- d * - d)%R with (d * d)%R by ring.
    apply exact_mul_neg_l.
  - (* the tails: [p] is not one half *)
    assert (Hd : d <> 0%R).
    { intros H0. rewrite H0, Rabs_R0 in Hcentral.
      change (0.425 : xreal) with (Fin (lit_to_R 0.425)) in Hcentral.
      rewrite exact_leb_Fin, exact_ltb_Fin in Hcentral.
      apply negb_false_iff, Rltb_true in Hcentral.
      rewrite lit_0425 in Hcentral. lra. }
    change (0.5 : xreal) with (Fin (lit_to_R 0.5)).
    rewrite !exact_ltb_Fin, lit_half.
    change (1 - Fin (1 - p)) with (Fin (lit_to_R 1 + - (1 - p))).
    change (1 - Fin p) with (Fin (lit_to_R 1 + - p)).
    rewrite lit_one.
    replace (1 + - (1 - p))%R with p by ring.
    replace (1 + - p)%R with (1 - p)%R by ring.
    unfold Rltb.
    destruct (Rlt_dec (1 - p) (1 / 2)) as [Hq | Hq],
             (Rlt_dec p (1 / 2)) as [Hp | Hp];
      try (exfalso; unfold d in Hd; lra).
    + reflexivity.
    + now rewrite xneg_involutive.
Qed.

(** The standardized quantile at [p] and at [1 - p]. *)
Lemma zQuantile_reflect (p : R) :
  exists z, zQuantile (Fin p) = Ok z /\ zQuantile (1 - Fin p) = Ok (- z).
Proof.
  change (1 - Fin p) with (Fin (lit_to_R 1 + - p)).
  rewrite lit_one. replace (1 + - p)%R with (1 - p)%R by ring.
  assert (Hone : forall q : R, (Fin q =? 1.0) = Reqb q 1)
    by (intros q; change (1.0 : xreal) with (Fin (lit_to_R 1));
        now rewrite exact_eqb_Fin, lit_one).
  assert (Hzero : forall q : R, (Fin q =? 0.0) = Reqb q 0)
    by (intros q; change (0.0 : xreal) with (Fin (lit_to_R 0));
        now rewrite exact_eqb_Fin, lit_zero).
  destruct (Req_dec_T p 1) as [-> | Hp1].
  - exists PosInf. split.
    + unfold zQuantile. rewrite Hone.
      now replace (Reqb 1 1) with true by (symmetry; now apply Reqb_true).
    + replace (1 - 1)%R with 0%R by ring.
      unfold zQuantile. rewrite Hone, Hzero.
      replace (Reqb 0 1) with false by (symmetry; apply Reqb_false; lra).
      now replace (Reqb 0 0) with true by (symmetry; now apply Reqb_true).
  - destruct (Req_dec_T p 0) as [-> | Hp0].
    + exists NegInf. split.
      * unfold zQuantile. rewrite Hone, Hzero.
        replace (Reqb 0 1) with false by (symmetry; apply Reqb_false; lra).
        now replace (Reqb 0 0) with true by (symmetry; now apply Reqb_true).
      * replace (1 - 0)%R with 1%R by ring.
        unfold zQuantile. rewrite Hone.
        now replace (Reqb 1 1) with true by (symmetry; now apply Reqb_true).
    + exists (zQuantile_regions (Fin p)). split.
      * apply zQuantile_inner; rewrite ?Hone, ?Hzero; now apply Reqb_false.
      * rewrite <- zQuantile_regions_reflect.
        apply zQuantile_inner; rewrite ?Hone, ?Hzero; apply Reqb_false; lra.
Qed.

(** X9. In exact arithmetic the standardized quantile is antisymmetric
    about one half: for every real [p], [zQuantile(1 - p)] is
    [-zQuantile(p)] -- in the central region, in the tails and at the two
    boundary values, where the infinities swap. *)
Theorem zQuantile_antisymmetric (p : R) :
  exists z, zQuantile (Fin p) = Ok z /\ zQuantile (1 - Fin p) = Ok (- z).
Proof. exact (zQuantile_reflect p). Qed.

Lemma exact_unit_affine (z : xreal) : 0 + 1 * z = z.
Proof.
  change (0 : xreal) with (Fin (lit_to_R 0)).
  change (1 : xreal) with (Fin (lit_to_R 1)).
  rewrite lit_zero, lit_one.
  destruct z as [r | | |]; simpl; try reflexivity.
  - f_equal. ring.
  - unfold inf_times, Rltb. destruct (Rlt_dec 0 1); [reflexivity | lra].
  - unfold inf_times, Rltb. destruct (Rlt_dec 0 1); [reflexivity | lra].
Qed.

Lemma exact_percentile_in_bounds (p : R) :
  (0 <= p <= 1)%R -> (Fin p <? 0) || (Fin p >? 1) = false.
Proof.
  intros [Hlo Hhi].
  change (0 : xreal) with (Fin (lit_to_R 0)).
  change (1 : xreal) with (Fin (lit_to_R 1)).
  rewrite !exact_ltb_Fin, lit_zero, lit_one.
  apply orb_false_iff. split; apply Rltb_false; lra.
Qed.

(** X10. In exact arithmetic, for a percentile [0 <= p <= 1], the
    quantile of any distribution is its location plus its scale times the
    quantile [z] of [UnitNormal], and the quantile at [1 - p] is the
    location plus the scale times [-z]: quantiles mirror about the
    location. *)
Theorem Quantile_mirror (n : @Normal xreal) (p : R) :
  (0 <= p <= 1)%R ->
  exists z,
    Quantile UnitNormal (Fin p) = Ok z /\
    Quantile n (Fin p) = Ok (Mu n + Sigma n * z) /\
    Quantile n (1 - Fin p) = Ok (Mu n + Sigma n * - z).
Proof.
  intros Hp.
  destruct (zQuantile_reflect p) as [z [Hz Hz']].
  assert (Hb := @exact_percentile_in_bounds p Hp).
  assert (Hb' : (1 - Fin p <? 0) || (1 - Fin p >? 1) = false).
  { change (1 - Fin p) with (Fin (lit_to_R 1 + - p)). rewrite lit_one.
    apply exact_percentile_in_bounds. lra. }
  exists z. repeat split.
  - unfold Quantile. rewrite Hb, Hz. cbn [bind result_monad panic_if ret].
    cbn [UnitNormal Mu Sigma]. now rewrite exact_unit_affine.
  - unfold Quantile. now rewrite Hb, Hz.
  - unfold Quantile. now rewrite Hb', Hz'.
Qed.

Lemma Quantile_mirror_witness :
  exists z,
    Quantile UnitNormal (Fin (1 / 4)) = Ok z /\
    Quantile {| Mu := 3; Sigma := 2 |} (Fin (1 / 4))
      = Ok (Fin (lit_to_R 3) + Fin (lit_to_R 2) * z) /\
    Quantile {| Mu := 3; Sigma := 2 |} (1 - Fin (1 / 4))
      = Ok (Fin (lit_to_R 3) + Fin (lit_to_R 2) * - z).
Proof.
  assert (H : (0 <= 1 / 4 <= 1)%R) by lra.
  exact (@Quantile_mirror {| Mu := 3; Sigma := 2 |} (1 / 4)%R H).
Defined.

End ExactQuantile.

(* ================================================================== *)
(** * The error function *)

Section ErrorFunction.
Import Exact.
Local Open Scope R_scope.

Lemma gauss_pos (t : R) : 0 < gauss t.
Proof. apply exp_pos. Qed.

Lemma gauss_even (t : R) : gauss (- t) = gauss t.
Proof. unfold gauss. f_equal. ring. Qed.

Lemma gauss_chasles (a b c : R) :
  RiemannInt (gauss_integrable a b) + RiemannInt (gauss_integrable b c)
  = RiemannInt (gauss_integrable a c).
Proof. apply RiemannInt_P26. Qed.

Lemma gauss_integral_pos (a b : R) :
  a < b -> 0 < RiemannInt (gauss_integrable a b).
Proof.
  intros Hab.
  set (c := exp (- (a * a + b * b))).
  assert (Hc : 0 < c) by apply exp_pos.
  apply Rlt_le_trans with (c * (b - a)).
  - apply Rmult_lt_0_compat; lra.
  - rewrite <- (RiemannInt_P15 (RiemannInt_P14 a b c)).
    apply RiemannInt_P19; [lra |].
    intros t Ht. unfold fct_cte, c, gauss.
    destruct (Rle_dec (- (a * a + b * b)) (- (t * t))) as [Hle | Hgt].
    + destruct Hle as [Hlt | Heq].
      * left. now apply exp_increasing.
      * right. now rewrite Heq.
    + exfalso. apply Hgt.
      destruct (Rle_dec 0 t).
      * assert (0 <= (b - t) * (b + t)) by (apply Rmult_le_pos; lra).
        pose proof (Rle_0_sqr a) as Ha. unfold Rsqr in Ha. lra.
      * assert (0 <= (t - a) * (- t - a)) by (apply Rmult_le_pos; lra).
        pose proof (Rle_0_sqr b) as Hb. unfold Rsqr in Hb. lra.
Qed.

Lemma erf_0 : erf 0 = 0.
Proof. unfold erf. rewrite RiemannInt_P9. ring. Qed.

Lemma erf_scale_pos : 0 < 2 / sqrt PI.
Proof.
  apply Rdiv_lt_0_compat; [lra |]. apply sqrt_lt_R0. apply PI_RGT_0.
Qed.

Lemma erf_increasing (x y : R) : x < y -> erf x < erf y.
Proof.
  intros Hxy. unfold erf.
  rewrite <- (gauss_chasles 0 x y).
  pose proof (@gauss_integral_pos x y Hxy).
  pose proof erf_scale_pos. nra.
Qed.

Lemma gauss_integral_odd (x : R) :
  RiemannInt (gauss_integrable 0 (- x)) = - RiemannInt (gauss_integrable 0 x).
Proof.
  set (M := Rabs x + 1).
  assert (HM : - M <= x <= M /\ - M <= - x <= M /\ - M <= 0 <= M).
  { unfold M. pose proof (Rabs_pos x). pose proof (Rle_abs x).
    pose proof (Rle_abs (- x)) as H1. rewrite Rabs_Ropp in H1. lra. }
  assert (h : - M <= M) by lra.
  set (C0 := fun (t : R) (_ : - M <= t <= M) => gauss_continuity t).
  set (G := primitive h (FTC_P1 h C0)).
  assert (HG : forall t, - M <= t <= M ->
                         G t = RiemannInt (gauss_integrable (- M) t)).
  { intros t [Ht1 Ht2]. unfold G, primitive.
    destruct (Rle_dec (- M) t) as [r | r]; [| contradiction].
    destruct (Rle_dec t M) as [r0 | r0]; [| contradiction].
    apply RiemannInt_P5. }
  assert (A1 : antiderivative gauss G (- M) M) by apply RiemannInt_P29.
  assert (A2 : antiderivative gauss (fun t => - G (- t)) (- M) M).
  { split; [| exact h]. intros t Ht.
    assert (Hlim : derivable_pt_lim (fun t => - G (- t)) t (gauss t)).
    { replace (gauss t) with (- (gauss (- t) * -1))
        by (rewrite gauss_even; ring).
      apply (derivable_pt_lim_opp (fun t => G (- t))).
      apply (derivable_pt_lim_comp (fun t => - t) G).
      - apply (derivable_pt_lim_opp (fun t => t)). apply derivable_pt_lim_id.
      - apply RiemannInt_P28. lra. }
    exists (exist _ (gauss t) Hlim). reflexivity. }
  destruct (antiderivative_Ucte _ _ _ _ _ A1 A2) as [c Hc].
  pose proof (Hc 0 (proj2 (proj2 HM))) as H0.
  pose proof (Hc x (proj1 HM)) as Hx.
  cbv beta in H0, Hx. rewrite Ropp_0 in H0.
  rewrite (HG 0) in H0 by lra.
  rewrite (HG x), (HG (- x)) in Hx by lra.
  pose proof (gauss_chasles (- M) 0 x).
  pose proof (gauss_chasles (- M) 0 (- x)).
  lra.
Qed.

Lemma erf_odd (x : R) : erf (- x) = - erf x.
Proof. unfold erf. rewrite gauss_integral_odd. ring. Qed.

End ErrorFunction.

(* ================================================================== *)
(** * The shape of the distribution in exact arithmetic *)

Section ExactShape.
Import Exact.
Local Open Scope f64_scope.

Variables m s : R.
Hypothesis Hs : (0 < s)%R.

Let n : @Normal xreal := {| Mu := Fin m; Sigma := Fin s |}.

(** The argument handed to [math.Erf]. *)
Lemma erf_argument (x : R) :
  (Fin x - Mu n) / (Sigma n * f_lit math_Sqrt2)
  = Fin ((x - m) / (s * lit_to_R math_Sqrt2)).
Proof.
  assert (Hc : (s * lit_to_R math_Sqrt2 <> 0)%R).
  { pose proof (lit_to_R_pos math_Sqrt2 eq_refl). nra. }
  unfold n. cbn [Mu Sigma].
  change (Fin x - Fin m) with (Fin (x + - m)).
  change (Fin s * f_lit math_Sqrt2) with (Fin (s * lit_to_R math_Sqrt2)).
  now rewrite (exact_div_Fin _ Hc).
Qed.

Lemma CDF_exact (x : R) :
  CDF n (Fin x)
  = Fin (1 / 2 * (1 + erf ((x - m) / (s * lit_to_R math_Sqrt2)))).
Proof.
  unfold CDF. rewrite erf_argument.
  change (math_Erf (Fin ?t)) with (Fin (erf t)).
  match goal with |- context [erf ?t] => set (e := erf t) end.
  change (Fin (lit_to_R 0.5 * (lit_to_R 1 + e)) = Fin (1 / 2 * (1 + e))).
  now rewrite lit_one, lit_half.
Qed.

Lemma Survival_exact (x : R) :
  Survival n (Fin x)
  = Fin (1 / 2 * (1 - erf ((x - m) / (s * lit_to_R math_Sqrt2)))).
Proof.
  unfold Survival. rewrite erf_argument.
  change (math_Erf (Fin ?t)) with (Fin (erf t)).
  match goal with |- context [erf ?t] => set (e := erf t) end.
  change (Fin (lit_to_R 0.5 * (lit_to_R 1 + - e)) = Fin (1 / 2 * (1 - e))).
  now rewrite lit_one, lit_half.
Qed.

Lemma erf_argument_increasing (x y : R) :
  (x < y)%R ->
  ((x - m) / (s * lit_to_R math_Sqrt2)
   < (y - m) / (s * lit_to_R math_Sqrt2))%R.
Proof.
  intros Hxy. pose proof (lit_to_R_pos math_Sqrt2 eq_refl) as Hq.
  assert (Hc : (0 < s * lit_to_R math_Sqrt2)%R) by nra.
  unfold Rdiv. apply Rmult_lt_compat_r; [| lra].
  now apply Rinv_0_lt_compat.
Qed.

(** X11. In exact arithmetic, for a positive scale, the distribution
    function is strictly increasing and the survival function strictly
    decreasing: both return finite values, and for [x < y],
    [CDF(x) < CDF(y)] and [Survival(x) > Survival(y)]. *)
Theorem CDF_strictly_increasing (x y : R) :
  (x < y)%R ->
  exists cx cy sx sy : R,
    CDF n (Fin x) = Fin cx /\ CDF n (Fin y) = Fin cy /\
    Survival n (Fin x) = Fin sx /\ Survival n (Fin y) = Fin sy /\
    (cx < cy)%R /\ (sy < sx)%R.
Proof.
  intros Hxy.
  pose proof (@erf_increasing _ _ (@erf_argument_increasing x y Hxy)) as He.
  do 4 eexists.
  split; [apply CDF_exact |]. split; [apply CDF_exact |].
  split; [apply Survival_exact |]. split; [apply Survival_exact |].
  split; lra.
Qed.

(** X12. In exact arithmetic, for a positive scale, the distribution is
    symmetric about its location: the survival function at [x] is the
    distribution function at the mirror image [2*Mu - x], and at the
    median both are one half. *)
Theorem Survival_is_mirrored_CDF (x : R) :
  Survival n (Fin x) = CDF n (Fin (2 * m - x))
  /\ CDF n (Median n) = 0.5
  /\ Survival n (Median n) = 0.5.
Proof.
  split; [| split].
  - rewrite Survival_exact, CDF_exact. f_equal.
    replace ((2 * m - x - m) / (s * lit_to_R math_Sqrt2))%R
      with (- ((x - m) / (s * lit_to_R math_Sqrt2)))%R
      by (unfold Rdiv; ring).
    rewrite erf_odd. lra.
  - change (Median n) with (Fin m). rewrite CDF_exact.
    change (0.5 : xreal) with (Fin (lit_to_R 0.5)). rewrite lit_half.
    f_equal.
    replace ((m - m) / (s * lit_to_R math_Sqrt2))%R with 0%R
      by (unfold Rdiv; ring).
    rewrite erf_0. lra.
  - change (Median n) with (Fin m). rewrite Survival_exact.
    change (0.5 : xreal) with (Fin (lit_to_R 0.5)). rewrite lit_half.
    f_equal.
    replace ((m - m) / (s * lit_to_R math_Sqrt2))%R with 0%R
      by (unfold Rdiv; ring).
    rewrite erf_0. lra.
Qed.

Lemma DLogProbDX_exact (x : R) :
  DLogProbDX n (Fin x) = Fin (- (x - m) / (s * s)).
Proof.
  unfold DLogProbDX, n. cbn [Mu Sigma].
  change (Fin x - Fin m) with (Fin (x + - m)).
  change (2 * Fin s * Fin s) with (Fin (lit_to_R 2 * s * s)).
  change (1 : xreal) with (Fin (lit_to_R 1)).
  rewrite lit_two, lit_one.
  rewrite exact_div_Fin by nra.
  change (2 : xreal) with (Fin (lit_to_R 2)). rewrite lit_two.
  change (Fin (- (1 / (2 * s * s)) * 2 * (x + - m))
          = Fin (- (x - m) / (s * s))).
  f_equal. field. lra.
Qed.

Lemma LogProb_real_derivative (x : R) :
  derivable_pt_lim (LogProb_real m s) x (- (x - m) / (s * s))%R.
Proof.
  set (c := lit_to_R negLogRoot2Pi).
  apply (derivable_pt_lim_ext
           (fun t => (c - ln s) + (- / (2 * s * s)) * ((t - m) * (t - m)))%R).
  { intros t. unfold LogProb_real. fold c. field. lra. }
  replace (- (x - m) / (s * s))%R
    with (0 + (- / (2 * s * s)) * ((1 - 0) * (x - m) + (x - m) * (1 - 0)))%R
    by (field; lra).
  apply (derivable_pt_lim_plus (fun _ => c - ln s)
           (fun t => (- / (2 * s * s)) * ((t - m) * (t - m))))%R.
  - apply derivable_pt_lim_const.
  - apply (derivable_pt_lim_scal (fun t => (t - m) * (t - m)))%R.
    apply (derivable_pt_lim_mult (fun t => t - m) (fun t => t - m))%R;
      apply (derivable_pt_lim_minus (fun t => t) (fun _ => m));
      (apply derivable_pt_lim_const || apply derivable_pt_lim_id).
Qed.

(** X13. In exact arithmetic, for a positive scale, [DLogProbDX] is the
    derivative of the log-density with respect to the point, and it
    vanishes exactly at the location. *)
Theorem DLogProbDX_is_derivative (x : R) :
  exists d : R,
    DLogProbDX n (Fin x) = Fin d /\
    derivable_pt_lim (LogProb_real m s) x d /\
    (d = 0%R <-> x = m).
Proof.
  exists (- (x - m) / (s * s))%R.
  split; [apply DLogProbDX_exact |].
  split; [apply LogProb_real_derivative |].
  assert (Hss : (0 < s * s)%R) by nra.
  split.
  - intros Hd.
    assert (H : (- (x - m) = 0)%R).
    { apply (Rmult_eq_reg_r (/ (s * s))); [| apply Rinv_neq_0_compat; lra].
      unfold Rdiv in Hd. lra. }
    lra.
  - intros ->. unfold Rdiv. ring.
Qed.

(** X14. In exact arithmetic, for a positive scale, the log-density is
    symmetric about the location and largest at the mode: the value at
    the mirror image [2*Mu - x] is the value at [x], and no value exceeds
    the value at [Mode]. *)
Theorem LogProb_peak (x : R) :
  exists l lmode : R,
    LogProb n (Fin x) = Fin l /\
    LogProb n (Fin (2 * m - x)) = Fin l /\
    LogProb n (Mode n) = Fin lmode /\
    (l <= lmode)%R.
Proof.
  exists (LogProb_real m s x), (LogProb_real m s m).
  split; [now apply LogProb_exact |].
  split.
  - unfold n. rewrite LogProb_exact by assumption. f_equal.
    unfold LogProb_real. f_equal. unfold Rdiv. ring.
  - split; [now apply LogProb_exact |].
    unfold LogProb_real.
    assert (Hss : (0 < 2 * s * s)%R) by nra.
    assert (Hq : (0 <= (x - m) * (x - m) / (2 * s * s))%R).
    { apply Rmult_le_pos; [apply (Rle_0_sqr (x - m)) |].
      left. now apply Rinv_0_lt_compat. }
    replace ((m - m) * (m - m) / (2 * s * s))%R with 0%R
      by (unfold Rdiv; ring).
    lra.
Qed.

(** X15. In exact arithmetic, for a positive scale, the density is the
    exponential of the real log-density: it is positive, symmetric about
    the location, and largest at the mode. *)
Theorem Prob_peak (x : R) :
  exists p pmode : R,
    Prob n (Fin x) = Fin p /\
    Prob n (Fin (2 * m - x)) = Fin p /\
    Prob n (Mode n) = Fin pmode /\
    p = exp (LogProb_real m s x) /\
    (0 < p <= pmode)%R.
Proof.
  exists (exp (LogProb_real m s x)), (exp (LogProb_real m s m)).
  assert (Hmirror : LogProb_real m s (2 * m - x) = LogProb_real m s x).
  { unfold LogProb_real. f_equal. unfold Rdiv. ring. }
  assert (Hle : (LogProb_real m s x <= LogProb_real m s m)%R).
  { unfold LogProb_real.
    assert (Hss : (0 < 2 * s * s)%R) by nra.
    assert (Hq : (0 <= (x - m) * (x - m) / (2 * s * s))%R).
    { apply Rmult_le_pos; [apply (Rle_0_sqr (x - m)) |].
      left. now apply Rinv_0_lt_compat. }
    replace ((m - m) * (m - m) / (2 * s * s))%R with 0%R
      by (unfold Rdiv; ring).
    lra. }
  unfold Prob, n. change (Mode ?d) with (Mu d). cbn [Mu].
  rewrite !LogProb_exact by assumption. rewrite Hmirror.
  repeat split; try reflexivity.
  - apply exp_pos.
  - destruct Hle as [Hlt | Heq].
    + left. now apply exp_increasing.
    + right. now rewrite Heq.
Qed.

End ExactShape.

(* ================================================================== *)
(** * Fitting in batches *)

Section PriorValue.
Context {F : Type} {ops : Float64 F}.
Local Open Scope f64_scope.

(** What [FitPrior] computes from a complete prior. *)
Lemma FitPrior_with_prior samples weights (pv0 pv1 pw0 pw1 : F) n :
  weights_match samples weights = true ->
  let m := stat_Mean samples weights in
  let v := stat_Moment 2 samples m weights in
  let sw := sum_of_weights samples weights in
  let tw := sw + pw0 in
  let mu := (m * sw + pv0 * pw0) / tw in
  let sigma :=
    math_Sqrt ((v * sw + pw1 * pv1 * pv1
                + pw0 * sw * (m - pv0) * (m - pv0) / tw) / tw) in
  FitPrior samples weights [pv0; pv1] [pw0; pw1] n
  = ({| Mu := mu; Sigma := sigma |},
     Ok ([mu; sigma], [sw + pw0; sw + pw1])).
Proof.
  intros Hw. unfold FitPrior. rewrite weights_check, Hw. reflexivity.
Qed.

End PriorValue.

Section Batches.
Import Exact.
Local Open Scope R_scope.

Local Abbreviation rsum l := (fold_left Rplus l 0).
Local Abbreviation rsqdev c l := (map (fun v => (v - c) * (v - c)) l).

Lemma rsum_acc (l : list R) (a : R) : fold_left Rplus l a = a + rsum l.
Proof.
  revert a. induction l as [| r l IH]; intros a; simpl; [ring |].
  rewrite (IH (a + r)), (IH (0 + r)). ring.
Qed.

Lemma rsum_cons (r : R) (l : list R) : rsum (r :: l) = r + rsum l.
Proof. simpl. rewrite (rsum_acc l (0 + r)). ring. Qed.

Lemma rsum_app (l1 l2 : list R) : rsum (l1 ++ l2) = rsum l1 + rsum l2.
Proof.
  induction l1 as [| r l1 IH]; [simpl; ring |].
  rewrite <- app_comm_cons, !rsum_cons, IH. ring.
Qed.

Lemma count_cons {A} (a : A) (l : list A) :
  IZR (len (a :: l)) = 1 + IZR (len l).
Proof.
  unfold len. cbn [List.length]. rewrite Nat2Z.inj_succ, succ_IZR. ring.
Qed.

Lemma count_app {A} (l1 l2 : list A) :
  IZR (len (l1 ++ l2)) = IZR (len l1) + IZR (len l2).
Proof.
  unfold len. now rewrite length_app, Nat2Z.inj_add, plus_IZR.
Qed.

Lemma count_pos {A} (l : list A) : l <> [] -> 0 < IZR (len l).
Proof.
  destruct l as [| a l]; [congruence |]. intros _.
  rewrite count_cons.
  assert (0 <= IZR (len l)) by (apply IZR_le; unfold len; lia). lra.
Qed.

(** The sum of squared deviations about [c], by sum and sum of squares. *)
Lemma rsqdev_expand (c : R) (l : list R) :
  rsum (rsqdev c l)
  = rsum (map (fun v => v * v) l) - 2 * c * rsum l + IZR (len l) * (c * c).
Proof.
  induction l as [| r l IH].
  - unfold len. simpl. ring.
  - cbn [map]. rewrite !rsum_cons, IH, count_cons. ring.
Qed.

Lemma rsqdev_nonneg (c : R) (l : list R) : 0 <= rsum (rsqdev c l).
Proof.
  induction l as [| r l IH]; [simpl; lra |].
  cbn [map]. rewrite rsum_cons.
  pose proof (Rle_0_sqr (r - c)) as H. unfold Rsqr in H. lra.
Qed.

(** Unweighted samples, no prior: the results in the reals. *)
Lemma FitPrior_unweighted (xs : list R) (n : @Normal xreal) :
  xs <> [] ->
  let N := IZR (len xs) in
  let mu := rsum xs / N in
  let sg := sqrt (rsum (rsqdev mu xs) / N) in
  FitPrior (map Fin xs) [] [] [] n
  = ({| Mu := Fin mu; Sigma := Fin sg |},
     Ok ([Fin mu; Fin sg], [Fin N; Fin N])).
Proof.
  intros Hxs N mu sg.
  assert (HN : 0 < N) by now apply count_pos.
  assert (HN' : real_weight_sum xs [] <> 0) by (cbn; fold N; lra).
  rewrite (@FitPrior_no_prior xreal _ (map Fin xs) [] n eq_refl).
  cbv zeta.
  change (@nil xreal) with (map Fin (@nil R)).
  rewrite sum_of_weights_Fin, (@stat_Mean_Fin xs [] HN'),
    (@stat_Moment_Fin xs [] _ HN').
  cbn [real_weight_sum real_mean real_moment2]. fold N.
  change (f_mul (Fin ?a) (Fin ?b)) with (Fin (a * b)).
  rewrite !exact_div_Fin by lra.
  fold mu.
  replace (mu * N / N) with mu by (field; lra).
  replace (rsum (rsqdev mu xs) / N * N / N)
    with (rsum (rsqdev mu xs) / N) by (field; lra).
  rewrite exact_sqrt_Fin.
  - reflexivity.
  - apply Rmult_le_pos; [apply rsqdev_nonneg |].
    left. now apply Rinv_0_lt_compat.
Qed.

(** X16. In exact arithmetic, fitting in two batches is fitting once:
    when the unweighted samples [xs] are fitted with no prior and the
    returned prior is handed on to a fit of the unweighted samples [ys],
    the receiver and the returned prior are those of one fit of [xs]
    followed by [ys] (both batches not empty). *)
Theorem FitPrior_batches (xs ys : list R) (n : @Normal xreal) :
  xs <> [] -> ys <> [] ->
  exists n1 pv pw,
    FitPrior (map Fin xs) [] [] [] n = (n1, Ok (pv, pw)) /\
    FitPrior (map Fin ys) [] pv pw n1
    = FitPrior (map Fin (xs ++ ys)) [] [] [] n.
Proof.
  intros Hxs Hys.
  assert (Hxy : (xs ++ ys)%list <> []).
  { intros H. apply app_eq_nil in H. now destruct H. }
  do 3 eexists. split; [now apply FitPrior_unweighted |].
  rewrite (@FitPrior_unweighted (xs ++ ys)%list n Hxy). cbv zeta.
  rewrite (@FitPrior_with_prior xreal _ (map Fin ys) [] _ _ _ _ _ eq_refl).
  cbv zeta.
  pose proof (count_pos Hxs) as HA. pose proof (count_pos Hys) as HB.
  assert (HB' : real_weight_sum ys [] <> 0) by (cbn; lra).
  change (sum_of_weights (map Fin ys) [])
    with (sum_of_weights (map Fin ys) (map Fin [])).
  change (stat_Mean (map Fin ys) [])
    with (stat_Mean (map Fin ys) (map Fin [])).
  rewrite sum_of_weights_Fin, (@stat_Mean_Fin ys [] HB').
  change (stat_Moment 2 (map Fin ys) (Fin (real_mean ys [])) [])
    with (stat_Moment 2 (map Fin ys) (Fin (real_mean ys [])) (map Fin [])).
  rewrite (@stat_Moment_Fin ys [] _ HB').
  cbn [real_weight_sum real_mean real_moment2].
  match goal with
  | |- context [Fin (sqrt (?a / IZR (len (xs ++ ys))))] =>
      assert (HAB : 0 <= a / IZR (len (xs ++ ys)))
        by (apply Rmult_le_pos;
            [apply rsqdev_nonneg
            | left; apply Rinv_0_lt_compat; now apply count_pos])
  end.
  assert (HVA : 0 <= rsum (rsqdev (rsum xs / IZR (len xs)) xs)
                     / IZR (len xs)).
  { apply Rmult_le_pos; [apply rsqdev_nonneg |].
    left. now apply Rinv_0_lt_compat. }
  rewrite <- (exact_sqrt_Fin HAB).
  set (VA := rsum (rsqdev (rsum xs / IZR (len xs)) xs) / IZR (len xs)) in *.
  repeat first
    [ progress change (f_mul (Fin ?a) (Fin ?b)) with (Fin (a * b))
    | progress change (f_add (Fin ?a) (Fin ?b)) with (Fin (a + b))
    | progress change (f_sub (Fin ?a) (Fin ?b)) with (Fin (a + - b))
    | rewrite exact_div_Fin by (rewrite ?count_app; lra) ].
  assert (Hmu : (rsum ys / IZR (len ys) * IZR (len ys)
                 + rsum xs / IZR (len xs) * IZR (len xs))
                / (IZR (len ys) + IZR (len xs))
                = rsum (xs ++ ys) / IZR (len (xs ++ ys))).
  { rewrite rsum_app, count_app. field. lra. }
  rewrite Hmu.
  assert (Hw : IZR (len ys) + IZR (len xs) = IZR (len (xs ++ ys)))
    by (rewrite count_app; ring).
  match goal with
  | |- context [math_Sqrt (Fin ?a)] =>
      match goal with
      | |- context [math_Sqrt (Fin ?b)] =>
          tryif constr_eq a b then fail else
            (assert (Hsg : a = b); [| rewrite Hsg, Hw; reflexivity])
      end
  end.
  replace (IZR (len xs) * sqrt VA * sqrt VA) with (IZR (len xs) * VA)
    by (rewrite Rmult_assoc, (sqrt_sqrt _ HVA); reflexivity).
  unfold VA. rewrite !rsqdev_expand, !map_app, !rsum_app, !count_app.
  field. lra.
Qed.

(** X17. In exact arithmetic, a prior of no weight is no prior: with
    finite prior values and both prior weights zero, [FitPrior] leaves the
    receiver and returns the prior that it does when no prior is given
    (finite samples and weights, the weights absent or one per sample,
    their sum not zero). *)
Theorem FitPrior_weightless_prior (xs ws : list R) (a b : R)
        (n : @Normal xreal) :
  weights_match (map Fin xs) (map Fin ws) = true ->
  real_weight_sum xs ws <> 0 ->
  FitPrior (map Fin xs) (map Fin ws) [Fin a; Fin b] [Fin 0; Fin 0] n
  = FitPrior (map Fin xs) (map Fin ws) [] [] n.
Proof.
  intros Hw Hsum.
  rewrite (@FitPrior_with_prior xreal _ _ _ _ _ _ _ n Hw),
    (@FitPrior_no_prior xreal _ _ _ n Hw).
  cbv zeta.
  rewrite sum_of_weights_Fin, (@stat_Mean_Fin xs ws Hsum),
    (@stat_Moment_Fin xs ws _ Hsum).
  set (W := real_weight_sum xs ws) in *.
  set (M := real_mean xs ws). set (V := real_moment2 xs M ws).
  assert (HW0 : W + 0 <> 0) by lra.
  repeat first
    [ progress change (f_mul (Fin ?a) (Fin ?b)) with (Fin (a * b))
    | progress change (f_add (Fin ?a) (Fin ?b)) with (Fin (a + b))
    | progress change (f_sub (Fin ?a) (Fin ?b)) with (Fin (a + - b))
    | rewrite (exact_div_Fin _ HW0)
    | rewrite (exact_div_Fin _ Hsum) ].
  replace ((M * W + a * 0) / (W + 0)) with (M * W / W) by (field; lra).
  replace ((V * W + 0 * b * b + 0 * W * (M + - a) * (M + - a) / (W + 0))
           / (W + 0))
    with (V * W / W) by (field; lra).
  replace (W + 0) with W by ring.
  reflexivity.
Qed.

(** X18. In exact arithmetic, after [Fit] on unweighted samples (at least
    one), [Mean] is the sample mean, [Variance] is the uncorrected sample
    variance itself -- the square of the square root that [Fit] stored --
    and [StdDev] is not negative. *)
Theorem Fit_then_moments (xs : list R) (n : @Normal xreal) :
  xs <> [] ->
  exists (n' : @Normal xreal) (sd : R),
    Fit (map Fin xs) [] n = (n', Ok tt) /\
    Mean n' = Fin (real_mean xs []) /\
    Variance n' = Fin (real_moment2 xs (real_mean xs []) []) /\
    StdDev n' = Fin sd /\ 0 <= sd.
Proof.
  intros Hxs. pose proof (count_pos Hxs) as HN.
  unfold Fit. cbn [bind exec_monad].
  rewrite (@FitPrior_unweighted xs n Hxs). cbv zeta.
  cbn [ret exec_monad real_mean real_moment2].
  do 2 eexists. split; [reflexivity |].
  unfold Mean, Variance, StdDev. cbn [Mu Sigma].
  split; [reflexivity |]. split; [| split; [reflexivity | apply sqrt_pos]].
  change (f_mul (Fin ?a) (Fin ?b)) with (Fin (a * b)).
  f_equal. apply sqrt_sqrt.
  apply Rmult_le_pos; [apply rsqdev_nonneg |].
  left. now apply Rinv_0_lt_compat.
Qed.

End Batches.

(* ================================================================== *)
(** * The entropy in exact arithmetic *)

Section ExactEntropy.
Import Exact.
Local Open Scope f64_scope.

(** The constant of the entropy, [log2Pi + 1], is added exactly. *)
Lemma Entropy_constant :
  lit_to_R (lit_add log2Pi 1) = (lit_to_R log2Pi + 1)%R.
Proof.
  let v := eval vm_compute in (lit_add log2Pi 1) in
  change (lit_add log2Pi 1) with v.
  unfold lit_to_R, log2Pi. simpl. lra.
Qed.

Lemma Entropy_exact (m s : R) :
  (0 < s)%R ->
  Entropy {| Mu := Fin m; Sigma := Fin s |}
  = Fin (1 / 2 * (lit_to_R log2Pi + 1 + 2 * ln s)).
Proof.
  intros Hs. unfold Entropy. cbn [Mu Sigma].
  rewrite (exact_log_Fin Hs).
  change (Fin (lit_to_R 0.5
               * (lit_to_R (lit_add log2Pi 1) + lit_to_R 2 * ln s))
          = Fin (1 / 2 * (lit_to_R log2Pi + 1 + 2 * ln s))).
  now rewrite Entropy_constant, lit_half, lit_two.
Qed.

(** X19. In exact arithmetic the entropy depends on the scale only, and
    grows with it by the logarithm of the ratio: for positive scales
    [s1] and [s2] and any locations, the entropies are finite, differ by
    [ln (s2 / s1)], and are ordered as the scales are. *)
Theorem Entropy_scale (m1 m2 s1 s2 : R) :
  (0 < s1)%R -> (0 < s2)%R ->
  exists e1 e2 : R,
    Entropy {| Mu := Fin m1; Sigma := Fin s1 |} = Fin e1 /\
    Entropy {| Mu := Fin m2; Sigma := Fin s2 |} = Fin e2 /\
    (e2 - e1)%R = ln (s2 / s1) /\
    ((s1 < s2)%R -> (e1 < e2)%R).
Proof.
  intros H1 H2. do 2 eexists.
  split; [now apply Entropy_exact |]. split; [now apply Entropy_exact |].
  split.
  - unfold Rdiv. rewrite ln_mult, ln_Rinv;
      [lra | assumption | assumption | now apply Rinv_0_lt_compat].
  - intros Hlt. pose proof (ln_increasing s1 s2 H1 Hlt). lra.
Qed.

End ExactEntropy.

(* ================================================================== *)
(** * Stored eigen decompositions *)

Section BuiltinCopy.
Context {A : Type}.
Local Open Scope list_scope.

Lemma copy_same_length (dst src : list A) :
  List.length dst = List.length src -> copy dst src = src.
Proof.
  intros H. unfold copy. rewrite H, Nat.min_id, firstn_all.
  rewrite <- H, skipn_all. apply app_nil_r.
Qed.

Lemma copy_make (zero : A) (k : nat) (src : list A) :
  copy (repeat zero k) src
  = firstn k src ++ repeat zero (k - List.length src).
Proof.
  unfold copy. rewrite repeat_length.
  destruct (Nat.le_ge_cases k (List.length src)) as [Hle | Hge].
  - rewrite (Nat.min_l _ _ Hle).
    rewrite <- (repeat_length zero k) at 2. rewrite skipn_all.
    replace (k - List.length src)%nat with 0%nat by lia. reflexivity.
  - rewrite (Nat.min_r _ _ Hge).
    rewrite (firstn_all2 src Hge), firstn_all. f_equal.
    replace k with (List.length src + (k - List.length src))%nat at 1
      by lia.
    rewrite repeat_app, skipn_app, repeat_length, Nat.sub_diag.
    rewrite <- (repeat_length zero (List.length src)) at 1.
    now rewrite skipn_all.
Qed.

Lemma len_eqb_length (l1 l2 : list A) :
  (len l1 =? len l2)%Z = true -> List.length l1 = List.length l2.
Proof. unfold len. intros H. apply Z.eqb_eq in H. lia. Qed.

End BuiltinCopy.

Section EigenAccessors.
Context {F : Type} {ops : Float64 F}.
Local Open Scope list_scope.
Variable Dense : Type.
Variable DenseCopyOf : option Dense -> result Dense.

(** X20. [EigenSym.Values] returns exactly the stored eigenvalues,
    whatever the destination held: it panics with [badFact] when no
    eigenvalue is stored, with the length-mismatch error when a
    destination of another length is given, and otherwise -- the
    destination [nil] or of the right length -- the result is the stored
    sequence. *)
Theorem EigenSym_Values_result (e : EigenSym.EigenSym Dense)
        (dst : option (list F)) :
  EigenSym.Values e dst
  = if EigenSym.succFact e then
      match dst with
      | None => Ok (EigenSym.values e)
      | Some d =>
          if (len d =? len (EigenSym.values e))%Z
          then Ok (EigenSym.values e)
          else Panic ErrSliceLengthMismatch
      end
    else Panic badFact.
Proof.
  unfold EigenSym.Values.
  destruct (EigenSym.succFact e) eqn:Hs; [| reflexivity].
  cbn [negb panic_if bind ret result_monad].
  destruct dst as [d |].
  - cbn [bind result_monad].
    destruct (len d =? len (EigenSym.values e))%Z eqn:Hlen;
      [| reflexivity].
    cbn [negb panic_if bind ret result_monad].
    now rewrite (copy_same_length _ _ (len_eqb_length _ _ Hlen)).
  - unfold make.
    replace (len (EigenSym.values e) <? 0)%Z with false
      by (symmetry; apply Z.ltb_ge; unfold len; lia).
    cbn [bind result_monad].
    assert (Hlen : (len (repeat (f_lit 0) (Z.to_nat (len (EigenSym.values e))))
                    =? len (EigenSym.values e))%Z = true).
    { apply Z.eqb_eq. unfold len. rewrite repeat_length. lia. }
    rewrite Hlen. cbn [negb panic_if bind ret result_monad].
    now rewrite (copy_same_length _ _ (len_eqb_length _ _ Hlen)).
Qed.

(** X21. [Eigen.Values] measures the destination against the stored size
    [n], not against the stored eigenvalues: when [n] is the number of
    stored eigenvalues, as [Factorize] leaves it, the result is the
    stored sequence under the same conditions as for [EigenSym]. *)
Theorem Eigen_Values_result (e : Eigen.Eigen Dense)
        (dst : option (list (complex128 F))) :
  Eigen.n e = len (Eigen.values e) ->
  Eigen.Values e dst
  = if Eigen.succFact e then
      match dst with
      | None => Ok (Eigen.values e)
      | Some d =>
          if (len d =? len (Eigen.values e))%Z
          then Ok (Eigen.values e)
          else Panic ErrSliceLengthMismatch
      end
    else Panic badFact.
Proof.
  intros Hn. unfold Eigen.Values. rewrite Hn.
  destruct (Eigen.succFact e) eqn:Hs; [| reflexivity].
  cbn [negb panic_if bind ret result_monad].
  destruct dst as [d |].
  - cbn [bind result_monad].
    destruct (len d =? len (Eigen.values e))%Z eqn:Hlen; [| reflexivity].
    cbn [negb panic_if bind ret result_monad].
    now rewrite (copy_same_length _ _ (len_eqb_length _ _ Hlen)).
  - unfold make.
    replace (len (Eigen.values e) <? 0)%Z with false
      by (symmetry; apply Z.ltb_ge; unfold len; lia).
    cbn [bind result_monad].
    match goal with
    | |- context [(len ?l =? len (Eigen.values e))%Z] =>
        assert (Hlen : (len l =? len (Eigen.values e))%Z = true)
          by (apply Z.eqb_eq; unfold len; rewrite repeat_length; lia)
    end.
    rewrite Hlen. cbn [negb panic_if bind ret result_monad].
    now rewrite (copy_same_length _ _ (len_eqb_length _ _ Hlen)).
Qed.

(** X22. With a [nil] destination [Eigen.Values] follows the stored size
    alone: for a stored size [n >= 0] and at least one stored eigenvalue
    the result has exactly [n] elements -- the first [n] stored
    eigenvalues, filled up with zeros when fewer are stored. *)
Theorem Eigen_Values_follows_n (e : Eigen.Eigen Dense) :
  Eigen.succFact e = true ->
  (0 <= Eigen.n e)%Z ->
  let k := Z.to_nat (Eigen.n e) in
  Eigen.Values e None
  = Ok (firstn k (Eigen.values e)
        ++ repeat (f_lit 0, f_lit 0) (k - List.length (Eigen.values e)))
  /\ len (firstn k (Eigen.values e)
          ++ repeat (f_lit 0, f_lit 0) (k - List.length (Eigen.values e)))
     = Eigen.n e.
Proof.
  intros Hs Hn k. split.
  - unfold Eigen.Values. rewrite Hs.
    cbn [negb panic_if bind ret result_monad]. unfold make.
    replace (Eigen.n e <? 0)%Z with false by (symmetry; apply Z.ltb_ge; lia).
    cbn [bind result_monad]. fold k.
    match goal with
    | |- context [(len ?l =? Eigen.n e)%Z] =>
        replace (len l =? Eigen.n e)%Z with true
          by (symmetry; apply Z.eqb_eq; unfold len, k;
              rewrite repeat_length; lia)
    end.
    cbn [negb panic_if bind ret result_monad].
    now rewrite copy_make.
  - unfold len. rewrite length_app, length_firstn, repeat_length.
    unfold k. lia.
Qed.

(** X23. Use without a successful factorization: when no eigenvalue is
    stored -- the zero value, or the state that a failed [Factorize]
    leaves -- [Values] of both decompositions, [Vectors] and
    [LeftVectors] panic with [badFact], whatever the other fields and
    the destination are. *)
Theorem use_without_factorization
        (es : EigenSym.EigenSym Dense) (e : Eigen.Eigen Dense)
        (ds : option (list F)) (d : option (list (complex128 F))) :
  EigenSym.values es = [] ->
  Eigen.values e = [] ->
  EigenSym.Values es ds = Panic badFact /\
  Eigen.Values e d = Panic badFact /\
  Eigen.Vectors DenseCopyOf e = Panic badFact /\
  Eigen.LeftVectors DenseCopyOf e = Panic badFact.
Proof.
  intros Hes He.
  unfold EigenSym.Values, Eigen.Values, Eigen.Vectors, Eigen.LeftVectors,
    EigenSym.succFact, Eigen.succFact.
  rewrite Hes, He. repeat split; reflexivity.
Qed.

End EigenAccessors.

(* ================================================================== *)
(** * Runs on binary64 *)

Section Binary64Extras.
Import Binary64.
Local Open Scope f64_scope.
Local Open Scope list_scope.

Lemma Marshal_then_Unmarshal_witness :
  exists s',
    MarshalSlice (F := float) {| Mu := 3; Sigma := 2 |} [0; 0] = Ok s'
    /\ UnmarshalSlice s' {| Mu := 0; Sigma := 1 |}
       = ({| Mu := 3; Sigma := 2 |}, Ok tt).
Proof.
  exact (@Marshal_then_Unmarshal float {| Mu := 3; Sigma := 2 |}
           {| Mu := 0; Sigma := 1 |} [0; 0] eq_refl).
Defined.

Lemma Unmarshal_then_Marshal_witness :
  exists n,
    UnmarshalSlice (F := float) [3; 2] {| Mu := 0; Sigma := 1 |}
    = (n, Ok tt)
    /\ MarshalSlice n [0; 0] = Ok [3; 2].
Proof.
  exact (@Unmarshal_then_Marshal float [3; 2] [0; 0]
           {| Mu := 0; Sigma := 1 |} eq_refl eq_refl).
Defined.

Lemma ParameterMap_slots_witness :
  exists s',
    MarshalSlice (F := float) {| Mu := 3; Sigma := 2 |} [0; 0] = Ok s'
    /\ index s' (map_get (ParameterMap {| Mu := 3; Sigma := 2 |}) "Mu")
       = Ok (Mean {| Mu := 3; Sigma := 2 |})
    /\ index s' (map_get (ParameterMap {| Mu := 3; Sigma := 2 |}) "Sigma")
       = Ok (StdDev {| Mu := 3; Sigma := 2 |}).
Proof.
  exact (@ParameterMap_slots float {| Mu := 3; Sigma := 2 |} [0; 0]
           eq_refl).
Defined.

Lemma rateval_prefix_witness :
  rateval (F := float) [1; 2; 3] 2 [4; 5] 1 2
  = Ok (horner 2 (firstn (Z.to_nat 2) [1; 2; 3])
        / horner 2 (firstn (Z.to_nat 1) [4; 5])).
Proof.
  apply (@rateval_prefix float _ [1; 2; 3] [4; 5] 2 1 2);
    [split; discriminate | split; discriminate | reflexivity | reflexivity].
Defined.

Lemma rateval_panics_witness :
  is_panic (rateval (F := float) [1; 2; 3] 4 [4; 5] 2 2)
  = negb ((1 <=? 4)%Z && (4 <=? len [1; 2; 3]%f64)%Z
          && ((1 <=? 2)%Z && (2 <=? len [4; 5]%f64)%Z)).
Proof.
  apply (@rateval_panics float _ [1; 2; 3] [4; 5] 4 2 2);
    [split; [discriminate | reflexivity]
    | split; [discriminate | reflexivity]
    | reflexivity | reflexivity].
Defined.

Lemma FitPrior_result_is_a_prior_witness :
  [5; 0] = [Mu (F := float) {| Mu := 5; Sigma := 0 |};
            Sigma (F := float) {| Mu := 5; Sigma := 0 |}]
  /\ len (A := float) [1; 1] = 2%Z
  /\ forall samples2 weights2 m,
       weights_match samples2 weights2 = true ->
       is_panic (snd (FitPrior (F := float) samples2 weights2
                        [5; 0] [1; 1] m)) = false.
Proof.
  assert (H : FitPrior (F := float) [5] [] [] [] {| Mu := 0; Sigma := 1 |}
              = ({| Mu := 5; Sigma := 0 |}, Ok ([5; 0], [1; 1])))
    by reflexivity.
  exact (@FitPrior_result_is_a_prior float _ _ _ _ _ _ _ _ _ H).
Defined.

Lemma FitPrior_replaces_parameters_witness :
  FitPrior (F := float) [5] [] [] [] {| Mu := 0; Sigma := 1 |}
  = FitPrior [5] [] [] [] {| Mu := 7; Sigma := 9 |}
  /\ Fit (F := float) [5] [] {| Mu := 0; Sigma := 1 |}
     = Fit [5] [] {| Mu := 7; Sigma := 9 |}.
Proof.
  exact (@FitPrior_replaces_parameters float _ [5] [] [] []
           {| Mu := 0; Sigma := 1 |} {| Mu := 7; Sigma := 9 |} eq_refl).
Defined.

Lemma Eigen_Values_result_witness :
  let e : Eigen.Eigen (F := float) unit :=
    {| Eigen.n := 2; Eigen.right := false; Eigen.left := false;
       Eigen.values := [(1, 0); (2, 0)];
       Eigen.rVectors := None; Eigen.lVectors := None |} in
  Eigen.Values e None
  = if Eigen.succFact e then Ok (Eigen.values e) else Panic badFact.
Proof.
  exact (@Eigen_Values_result float _ unit
           {| Eigen.n := 2; Eigen.right := false; Eigen.left := false;
              Eigen.values := [(1, 0); (2, 0)];
              Eigen.rVectors := None; Eigen.lVectors := None |}
           None eq_refl).
Defined.

Lemma Eigen_Values_follows_n_witness :
  let e : Eigen.Eigen (F := float) unit :=
    {| Eigen.n := 1; Eigen.right := false; Eigen.left := false;
       Eigen.values := [(1, 0); (2, 0)];
       Eigen.rVectors := None; Eigen.lVectors := None |} in
  let k := Z.to_nat (Eigen.n e) in
  Eigen.Values e None
  = Ok (firstn k (Eigen.values e)
        ++ repeat (f_lit 0, f_lit 0) (k - List.length (Eigen.values e)))
  /\ len (firstn k (Eigen.values e)
          ++ repeat (f_lit 0, f_lit 0) (k - List.length (Eigen.values e)))
     = Eigen.n e.
Proof.
  assert (H : (0 <= 1)%Z) by discriminate.
  exact (@Eigen_Values_follows_n float _ unit
           {| Eigen.n := 1; Eigen.right := false; Eigen.left := false;
              Eigen.values := [(1, 0); (2, 0)];
              Eigen.rVectors := None; Eigen.lVectors := None |}
           eq_refl H).
Defined.

Lemma use_without_factorization_witness :
  let es : EigenSym.EigenSym (F := float) unit :=
    {| EigenSym.vectorsComputed := false; EigenSym.values := [];
       EigenSym.vectors := None |} in
  let e : Eigen.Eigen (F := float) unit :=
    {| Eigen.n := 0; Eigen.right := false; Eigen.left := false;
       Eigen.values := [];
       Eigen.rVectors := None; Eigen.lVectors := None |} in
  EigenSym.Values es (Some [0; 0]) = Panic badFact /\
  Eigen.Values e None = Panic badFact /\
  Eigen.Vectors (fun _ => Ok tt) e = Panic badFact /\
  Eigen.LeftVectors (fun _ => Ok tt) e = Panic badFact.
Proof.
  exact (@use_without_factorization float _ unit (fun _ => Ok tt)
           {| EigenSym.vectorsComputed := false; EigenSym.values := [];
              EigenSym.vectors := None |}
           {| Eigen.n := 0; Eigen.right := false; Eigen.left := false;
              Eigen.values := [];
              Eigen.rVectors := None; Eigen.lVectors := None |}
           (Some [0; 0]) None eq_refl eq_refl).
Defined.

End Binary64Extras.

(* ================================================================== *)
(** * Runs in exact arithmetic *)

Section ExactExtras.
Import Exact.
Local Open Scope f64_scope.
Local Open Scope list_scope.

Lemma CDF_strictly_increasing_witness :
  exists cx cy sx sy : R,
    CDF {| Mu := Fin 0; Sigma := Fin 1 |} (Fin 0) = Fin cx /\
    CDF {| Mu := Fin 0; Sigma := Fin 1 |} (Fin 1) = Fin cy /\
    Survival {| Mu := Fin 0; Sigma := Fin 1 |} (Fin 0) = Fin sx /\
    Survival {| Mu := Fin 0; Sigma := Fin 1 |} (Fin 1) = Fin sy /\
    (cx < cy)%R /\ (sy < sx)%R.
Proof.
  exact (@CDF_strictly_increasing 0%R 1%R Rlt_0_1 0%R 1%R Rlt_0_1).
Defined.

Lemma Survival_is_mirrored_CDF_witness :
  Survival {| Mu := Fin 1; Sigma := Fin 1 |} (Fin 3)
  = CDF {| Mu := Fin 1; Sigma := Fin 1 |} (Fin (2 * 1 - 3))
  /\ CDF {| Mu := Fin 1; Sigma := Fin 1 |}
       (Median {| Mu := Fin 1; Sigma := Fin 1 |}) = 0.5
  /\ Survival {| Mu := Fin 1; Sigma := Fin 1 |}
       (Median {| Mu := Fin 1; Sigma := Fin 1 |}) = 0.5.
Proof.
  exact (@Survival_is_mirrored_CDF 1%R 1%R Rlt_0_1 3%R).
Defined.

Lemma DLogProbDX_is_derivative_witness :
  exists d : R,
    DLogProbDX {| Mu := Fin 1; Sigma := Fin 1 |} (Fin 3) = Fin d /\
    derivable_pt_lim (LogProb_real 1 1) 3 d /\
    (d = 0%R <-> 3%R = 1%R).
Proof.
  exact (@DLogProbDX_is_derivative 1%R 1%R Rlt_0_1 3%R).
Defined.

Lemma LogProb_peak_witness :
  exists l lmode : R,
    LogProb {| Mu := Fin 1; Sigma := Fin 1 |} (Fin 3) = Fin l /\
    LogProb {| Mu := Fin 1; Sigma := Fin 1 |} (Fin (2 * 1 - 3)) = Fin l /\
    LogProb {| Mu := Fin 1; Sigma := Fin 1 |}
      (Mode {| Mu := Fin 1; Sigma := Fin 1 |}) = Fin lmode /\
    (l <= lmode)%R.
Proof.
  exact (@LogProb_peak 1%R 1%R Rlt_0_1 3%R).
Defined.

Lemma Prob_peak_witness :
  exists p pmode : R,
    Prob {| Mu := Fin 1; Sigma := Fin 1 |} (Fin 3) = Fin p /\
    Prob {| Mu := Fin 1; Sigma := Fin 1 |} (Fin (2 * 1 - 3)) = Fin p /\
    Prob {| Mu := Fin 1; Sigma := Fin 1 |}
      (Mode {| Mu := Fin 1; Sigma := Fin 1 |}) = Fin pmode /\
    p = exp (LogProb_real 1 1 3) /\
    (0 < p <= pmode)%R.
Proof.
  exact (@Prob_peak 1%R 1%R Rlt_0_1 3%R).
Defined.

Lemma Entropy_scale_witness :
  exists e1 e2 : R,
    Entropy {| Mu := Fin 0; Sigma := Fin 1 |} = Fin e1 /\
    Entropy {| Mu := Fin 5; Sigma := Fin 2 |} = Fin e2 /\
    (e2 - e1)%R = ln (2 / 1) /\
    ((1 < 2)%R -> (e1 < e2)%R).
Proof.
  exact (@Entropy_scale 0%R 5%R 1%R 2%R Rlt_0_1 Rlt_0_2).
Defined.

Lemma FitPrior_batches_witness :
  exists n1 pv pw,
    FitPrior (map Fin [1; 2]%R) [] [] [] {| Mu := Fin 0; Sigma := Fin 1 |}
    = (n1, Ok (pv, pw)) /\
    FitPrior (map Fin [3]%R) [] pv pw n1
    = FitPrior (map Fin ([1; 2] ++ [3])%R) [] [] []
        {| Mu := Fin 0; Sigma := Fin 1 |}.
Proof.
  assert (H1 : [1; 2]%R <> []) by discriminate.
  assert (H2 : [3]%R <> []) by discriminate.
  exact (@FitPrior_batches [1; 2]%R [3]%R
           {| Mu := Fin 0; Sigma := Fin 1 |} H1 H2).
Defined.

Lemma FitPrior_weightless_prior_witness :
  FitPrior (map Fin [1; 2; 3]%R) (map Fin []) [Fin 7; Fin 9] [Fin 0; Fin 0]
    {| Mu := Fin 0; Sigma := Fin 1 |}
  = FitPrior (map Fin [1; 2; 3]%R) (map Fin []) [] []
      {| Mu := Fin 0; Sigma := Fin 1 |}.
Proof.
  assert (H : real_weight_sum [1; 2; 3]%R [] <> 0%R).
  { unfold real_weight_sum, len. simpl. lra. }
  exact (@FitPrior_weightless_prior [1; 2; 3]%R [] 7%R 9%R
           {| Mu := Fin 0; Sigma := Fin 1 |} eq_refl H).
Defined.

Lemma Fit_then_moments_witness :
  exists (n' : @Normal xreal) (sd : R),
    Fit (map Fin [1; 2; 3]%R) [] {| Mu := Fin 0; Sigma := Fin 1 |}
    = (n', Ok tt) /\
    Mean n' = Fin (real_mean [1; 2; 3]%R []) /\
    Variance n'
    = Fin (real_moment2 [1; 2; 3]%R (real_mean [1; 2; 3]%R []) []) /\
    StdDev n' = Fin sd /\ (0 <= sd)%R.
Proof.
  assert (H : [1; 2; 3]%R <> []) by discriminate.
  exact (@Fit_then_moments [1; 2; 3]%R
           {| Mu := Fin 0; Sigma := Fin 1 |} H).
Defined.

End ExactExtras.
